(** * prelude-music/ts-client: the API client's request construction,
      response classification and pagination contract

    A shallow embedding of [src/ApiClient.ts].  The classes of the
    program ([ApiClient], [ApiRequest], [ApiResponse], [ApiError], [Body],
    [JsonBody]) are translated function by function.  The platform classes
    they are written against ([URL], [URLSearchParams], [Headers], [JSON],
    [Response]) are given as small executable models first.

    JavaScript strings are modelled as [string] (sequences of bytes, a
    string being its UTF-8 text), numbers as [Z] (integer-valued numbers,
    printed in plain decimal digits), object references as locations of a
    store, exceptions as an [outcome] type. *)

From stdpp Require Import gmap strings list pretty.
From Stdlib Require Import ZArith Ascii String.

Local Open Scope string_scope.
Local Open Scope list_scope.
Local Open Scope Z_scope.

(** ** JavaScript strings *)

Module JsString.

(** [s.startsWith(p)] *)
Fixpoint startsWith (p s : string) : bool :=
  match p, s with
  | EmptyString, _ => true
  | String a p', String b s' => Ascii.eqb a b && startsWith p' s'
  | String _ _, EmptyString => false
  end.

(** [s.endsWith(p)]: [p] is [s] or the end of what follows the first
    character of [s]. *)
Fixpoint endsWith (p s : string) : bool :=
  String.eqb p s
  || match s with
     | EmptyString => false
     | String _ t => endsWith p t
     end.

(** [s.slice(1)] *)
Definition slice1 (s : string) : string :=
  match s with
  | EmptyString => EmptyString
  | String _ t => t
  end.

(** ASCII lower-casing of one byte and of a string (the byte-lowercase of
    header names). *)
Definition lower_ascii (c : ascii) : ascii :=
  let n := N_of_ascii c in
  if ((65 <=? n) && (n <=? 90))%N then ascii_of_N (n + 32) else c.

Fixpoint toLowerCase (s : string) : string :=
  match s with
  | EmptyString => EmptyString
  | String c t => String (lower_ascii c) (toLowerCase t)
  end.

(** [parts.join(sep)] *)
Definition join (sep : string) (parts : list string) : string :=
  String.concat sep parts.

(** One byte as two hexadecimal digits, with the given digit alphabet. *)
Definition hex_digit (digits : string) (n : N) : ascii :=
  match String.get (N.to_nat n) digits with
  | Some c => c
  | None => "0"%char
  end.

Definition hex2 (digits : string) (c : ascii) : string :=
  let n := N_of_ascii c in
  String (hex_digit digits (n / 16)%N)
    (String (hex_digit digits (n mod 16)%N) EmptyString).

End JsString.

(** ** The URL parser on paths

    What the URL Standard's parser does with a string assigned to the
    [pathname] of an [http] or [https] URL: tabs and newlines are removed,
    one leading slash or backslash is skipped, and the path state splits
    the rest at slashes and backslashes into segments, percent-encoding
    the characters of the path percent-encode set and resolving the dot
    segments; the getter returns each segment after a slash. *)

Module UrlPath.

Definition is_tab_or_newline (c : ascii) : bool :=
  let n := N_of_ascii c in ((n =? 9) || (n =? 10) || (n =? 13))%N.

Fixpoint strip_tab_newline (s : string) : string :=
  match s with
  | EmptyString => EmptyString
  | String c rest =>
      if is_tab_or_newline c then strip_tab_newline rest
      else String c (strip_tab_newline rest)
  end.

(** A slash or a backslash. *)
Definition is_separator (c : ascii) : bool :=
  let n := N_of_ascii c in ((n =? 47) || (n =? 92))%N.

(** The path percent-encode set: the C0 controls, the bytes from 0x7F up
    (every byte of a character outside ASCII), space and the characters
    of [double quote, #, <, >, ?, ^, backquote, left brace, right brace]. *)
Definition in_encode_set (c : ascii) : bool :=
  let n := N_of_ascii c in
  ((n <=? 31) || (127 <=? n)
   || (n =? 32) || (n =? 34) || (n =? 35) || (n =? 60) || (n =? 62)
   || (n =? 63) || (n =? 94) || (n =? 96) || (n =? 123) || (n =? 125))%N.

Definition percent_encode (c : ascii) : string :=
  if in_encode_set c then String "%" (JsString.hex2 "0123456789ABCDEF" c)
  else String c EmptyString.

(** The single-dot and double-dot segments, written with dots or with
    [%2e] in either case of the letter. *)
Definition single_dot (s : string) : bool :=
  let l := JsString.toLowerCase s in String.eqb l "." || String.eqb l "%2e".

Definition double_dot (s : string) : bool :=
  let l := JsString.toLowerCase s in
  String.eqb l ".." || String.eqb l ".%2e" || String.eqb l "%2e."
  || String.eqb l "%2e%2e".

(** Shortening a path removes its last segment, if it has one. *)
Definition shorten (path : list string) : list string := removelast path.

(** The end of a segment, at a separator or ([at_end]) at the end of the
    input: a double-dot segment shortens the path, a single-dot segment
    is dropped, and both leave an empty segment at the end of the input;
    any other segment is appended. *)
Definition end_segment (at_end : bool) (path : list string) (buffer : string)
    : list string :=
  if double_dot buffer
  then (if at_end then shorten path ++ [EmptyString] else shorten path)
  else if single_dot buffer
  then (if at_end then path ++ [EmptyString] else path)
  else path ++ [buffer].

(** The path state. *)
Fixpoint path_state (input : string) (path : list string) (buffer : string)
    : list string :=
  match input with
  | EmptyString => end_segment true path buffer
  | String c rest =>
      if is_separator c
      then path_state rest (end_segment false path buffer) EmptyString
      else path_state rest path (buffer +:+ percent_encode c)
  end.

(** The path start state. *)
Definition path_start (input : string) : string :=
  match input with
  | String c rest => if is_separator c then rest else input
  | EmptyString => EmptyString
  end.

(** The path serializer. *)
Fixpoint serialize (path : list string) : string :=
  match path with
  | [] => EmptyString
  | segment :: rest => String "/" segment +:+ serialize rest
  end.

(** The path a URL has once [s] has been assigned to its [pathname]. *)
Definition parse (s : string) : string :=
  serialize (path_state (path_start (strip_tab_newline s)) [] EmptyString).

End UrlPath.

(** ** The platform's [URL] objects

    The URL objects of the program are [http] or [https] URLs.  A [URL]
    value holds its origin and the strings its path and query were last
    given; the getters return them as the URL parser keeps them.  URL
    objects are mutable and passed by reference: they live in a store,
    and the program handles their locations. *)

Record URL : Type := mkURL {
  origin : string;
  assigned_path : string;
  search : string
}.

Definition loc : Type := positive.

(** [u.pathname] *)
Definition pathname (u : URL) : string := UrlPath.parse (assigned_path u).

(** [u.pathname = p]: the URL parser runs on [p] from its path start
    state, and the URL holds the path it produces. *)
Definition URL_set_pathname (p : string) (u : URL) : URL :=
  {| origin := origin u; assigned_path := UrlPath.parse p; search := search u |}.

(** [u.search = q]: an empty string clears the query; otherwise one leading
    [?] of the argument is dropped, and the getter returns [?] followed by
    the query. *)
Definition URL_set_search (q : string) (u : URL) : URL :=
  {| origin := origin u;
     assigned_path := assigned_path u;
     search := match q with
               | EmptyString => EmptyString
               | String "?" EmptyString => EmptyString
               | String "?" q' => String "?" q'
               | _ => String "?" q
               end |}.

(** ** The store and the monad of store-passing computations

    A computation reads and writes the store of URL objects.  [None] is a
    reference to no object, which no run of the program produces. *)

Definition M (A : Type) : Type := gmap loc URL → option (A * gmap loc URL).

Definition mret {A} (a : A) : M A := λ h, Some (a, h).

Definition mbind {A B} (m : M A) (k : A → M B) : M B :=
  λ h, match m h with
       | Some (a, h') => k a h'
       | None => None
       end.

Notation "'let*' x ':=' c1 'in' c2" := (mbind c1 (λ x, c2))
  (at level 10, x name, c1 at level 100, c2 at level 200).
Notation "c1 ';;' c2" := (mbind c1 (λ _, c2))
  (at level 100, c2 at level 200, right associativity).

(** Read the object at [l]. *)
Definition deref (l : loc) : M URL :=
  λ h, match h !! l with
       | Some u => Some (u, h)
       | None => None
       end.

(** Update in place the object at [l]. *)
Definition modify (l : loc) (f : URL → URL) : M unit :=
  λ h, match h !! l with
       | Some u => Some (tt, <[l := f u]> h)
       | None => None
       end.

(** ** The platform's [URLSearchParams]

    An ordered list of name-value pairs. *)

Module URLSearchParams.

Definition t : Type := list (string * string).

(** [new URLSearchParams()] *)
Definition new : t := [].

(** [usp.append(name, value)] *)
Definition append (name value : string) (usp : t) : t :=
  usp ++ [(name, value)].

(** [usp.has(name)] *)
Definition has (name : string) (usp : t) : bool :=
  existsb (λ p, String.eqb (fst p) name) usp.

(** [usp.set(name, value)]: the first pair of that name takes the value and
    the later ones go; without such a pair, the pair is appended. *)
Fixpoint set (name value : string) (usp : t) : t :=
  match usp with
  | [] => [(name, value)]
  | (n, v) :: rest =>
      if String.eqb n name
      then (n, value) :: List.filter (λ p, negb (String.eqb (fst p) name)) rest
      else (n, v) :: set name value rest
  end.

(** The bytes the [application/x-www-form-urlencoded] serializer leaves as
    they are: ASCII letters and digits and [*-._]. *)
Definition unreserved (c : ascii) : bool :=
  let n := N_of_ascii c in
  ((48 <=? n) && (n <=? 57) || (65 <=? n) && (n <=? 90)
   || (97 <=? n) && (n <=? 122)
   || (n =? 42) || (n =? 45) || (n =? 46) || (n =? 95))%N.

Fixpoint encode (s : string) : string :=
  match s with
  | EmptyString => EmptyString
  | String c rest =>
      (if unreserved c then String c EmptyString
       else if Ascii.eqb c " " then "+"
       else String "%" (JsString.hex2 "0123456789ABCDEF" c))
      +:+ encode rest
  end.

(** [usp.toString()] *)
Definition toString (usp : t) : string :=
  JsString.join "&" (map (λ p, encode (fst p) +:+ "=" +:+ encode (snd p)) usp).

End URLSearchParams.

(** ** The platform's [Headers]

    A header list.  Names are kept in lower case, so that they match
    whatever the case they are asked in.  A method that throws a
    [TypeError] returns an option, [None] being the throw. *)

Module Headers.

Definition t : Type := list (string * string).

(** A header name is a token: one character or more, each a letter, a
    digit or one of [!#$%&'*+-.^_`|~]. *)
Definition is_token_char (c : ascii) : bool :=
  let n := N_of_ascii c in
  ((48 <=? n) && (n <=? 57) || (65 <=? n) && (n <=? 90)
   || (97 <=? n) && (n <=? 122)
   || (n =? 33) || (n =? 35) || (n =? 36) || (n =? 37) || (n =? 38)
   || (n =? 39) || (n =? 42) || (n =? 43) || (n =? 45) || (n =? 46)
   || (n =? 94) || (n =? 95) || (n =? 96) || (n =? 124) || (n =? 126))%N.

Fixpoint all_token_chars (s : string) : bool :=
  match s with
  | EmptyString => true
  | String c rest => is_token_char c && all_token_chars rest
  end.

Definition valid_name (name : string) : bool :=
  negb (String.eqb name EmptyString) && all_token_chars name.

(** HTTP whitespace: tab, line feed, carriage return and space. *)
Definition is_whitespace (c : ascii) : bool :=
  let n := N_of_ascii c in ((n =? 9) || (n =? 10) || (n =? 13) || (n =? 32))%N.

Fixpoint strip_leading (s : string) : string :=
  match s with
  | EmptyString => EmptyString
  | String c rest => if is_whitespace c then strip_leading rest else s
  end.

Fixpoint strip_trailing (s : string) : string :=
  match s with
  | EmptyString => EmptyString
  | String c rest =>
      let rest' := strip_trailing rest in
      if is_whitespace c && String.eqb rest' EmptyString then EmptyString
      else String c rest'
  end.

(** A value is normalized by removing its leading and trailing HTTP
    whitespace. *)
Definition normalize (value : string) : string :=
  strip_trailing (strip_leading value).

(** A normalized value is a header value when it holds no NUL, line feed
    or carriage return, and is a byte string: no character above U+00FF,
    that is, in UTF-8, no byte from 0xC4 up. *)
Definition is_value_byte (c : ascii) : bool :=
  let n := N_of_ascii c in
  (negb (n =? 0) && negb (n =? 10) && negb (n =? 13) && (n <? 196))%N.

Fixpoint valid_value (value : string) : bool :=
  match value with
  | EmptyString => true
  | String c rest => is_value_byte c && valid_value rest
  end.

Definition named (name : string) (p : string * string) : bool :=
  String.eqb (fst p) (JsString.toLowerCase name).

(** Appending to and setting in a header list. *)
Definition append_in (name value : string) (h : t) : t :=
  h ++ [(JsString.toLowerCase name, value)].

Fixpoint set_in (name value : string) (h : t) : t :=
  match h with
  | [] => [(JsString.toLowerCase name, value)]
  | p :: rest =>
      if named name p
      then (fst p, value) :: List.filter (λ p, negb (named name p)) rest
      else p :: set_in name value rest
  end.

(** [h.append(name, value)]: the value is normalized; an invalid name or
    value throws. *)
Definition append (name value : string) (h : t) : option t :=
  let value := normalize value in
  if valid_name name && valid_value value
  then Some (append_in name value h)
  else None.

(** [h.delete(name)]: an invalid name throws. *)
Definition delete (name : string) (h : t) : option t :=
  if valid_name name
  then Some (List.filter (λ p, negb (named name p)) h)
  else None.

(** [h.set(name, value)]: the value is normalized; an invalid name or
    value throws; the first header of that name takes the value and the
    later ones go, and without such a header the header is appended. *)
Definition set (name value : string) (h : t) : option t :=
  let value := normalize value in
  if valid_name name && valid_value value
  then Some (set_in name value h)
  else None.

(** [h.get(name)]: an invalid name throws; the result is [null] without
    such a header, otherwise its values joined by a comma and a space. *)
Definition get (name : string) (h : t) : option (option string) :=
  if valid_name name
  then Some match List.filter (named name) h with
            | [] => None
            | vs => Some (JsString.join ", " (map snd vs))
            end
  else None.

(** [new Headers(init)], [init] being the name-value pairs of a record or
    of an array of pairs: each pair is appended in turn. *)
Definition new (init : list (string * string)) : option t :=
  fold_left (λ h p, h ≫= append (fst p) (snd p)) init (Some []).

End Headers.

(** ** Numbers *)

(** [n.toString()] and [ToString(n)] on a number: its decimal digits. *)
Definition Number_toString (n : Z) : string := pretty n.

(** ** JSON values

    What [JSON.parse] and [res.json()] produce.  An object is the list of
    its own properties in the order they are enumerated. *)

#[local] Set Warnings "-register-all".

Inductive JSON : Type :=
| JNull
| JBool (b : bool)
| JNumber (n : Z)
| JString (s : string)
| JArray (items : list JSON)
| JObject (props : list (string * JSON)).

Module Json.

Definition dquote : ascii := ascii_of_N 34.
Definition backslash : ascii := ascii_of_N 92.

(** One character inside a JSON string literal. *)
Definition escape (c : ascii) : string :=
  let n := N_of_ascii c in
  if (n =? 34)%N then String backslash (String dquote EmptyString)
  else if (n =? 92)%N then String backslash (String backslash EmptyString)
  else if (n =? 8)%N then String backslash "b"
  else if (n =? 9)%N then String backslash "t"
  else if (n =? 10)%N then String backslash "n"
  else if (n =? 12)%N then String backslash "f"
  else if (n =? 13)%N then String backslash "r"
  else if (n <? 32)%N
       then String backslash ("u00" +:+ JsString.hex2 "0123456789abcdef" c)
  else String c EmptyString.

Fixpoint escape_all (s : string) : string :=
  match s with
  | EmptyString => EmptyString
  | String c rest => escape c +:+ escape_all rest
  end.

Definition quote (s : string) : string :=
  String dquote (escape_all s +:+ String dquote EmptyString).

(** [JSON.stringify(v)] *)
Fixpoint stringify (v : JSON) : string :=
  match v with
  | JNull => "null"
  | JBool b => if b then "true" else "false"
  | JNumber n => Number_toString n
  | JString s => quote s
  | JArray items => "[" +:+ JsString.join "," (map stringify items) +:+ "]"
  | JObject props =>
      "{" +:+ JsString.join ","
                (map (λ p, quote (fst p) +:+ ":" +:+ stringify (snd p)) props)
          +:+ "}"
  end.

(** The property named [key] of an object, if it has one. *)
Fixpoint lookup (key : string) (props : list (string * JSON)) : option JSON :=
  match props with
  | [] => None
  | (k, v) :: rest => if String.eqb k key then Some v else lookup key rest
  end.

Definition has_key (key : string) (props : list (string * JSON)) : bool :=
  existsb (λ p, String.eqb (fst p) key) props.

End Json.

(** ** The platform's [Response]

    A response as [fetch] resolves to it, whose body is read to its end
    by [res.json()], once: [status] is the status code, and [json] is
    what [res.json()] resolves to, [None] when the text of the body is
    not JSON and the call is rejected with a [SyntaxError].  A body that
    cannot be read (a body already read, a stream that fails) makes
    [res.json()] reject otherwise, and is not described by this record:
    what is proved of [ApiResponse.from] is proved of responses whose
    body can be read. *)

Record Response : Type := mkResponse {
  status : Z;
  json : option JSON
}.

(** [res.ok]: the status is in the range 200-299. *)
Definition ok (res : Response) : bool :=
  (200 <=? status res) && (status res <=? 299).

(** ** JavaScript operators on JSON values

    A value of the language is a JSON value or [undefined] ([None]).  An
    operator that can throw a [TypeError] returns an option, [None] being
    the throw. *)

Module Js.

(** [typeof v] *)
Definition typeof (v : JSON) : string :=
  match v with
  | JNull | JArray _ | JObject _ => "object"
  | JBool _ => "boolean"
  | JNumber _ => "number"
  | JString _ => "string"
  end.

(** [key in v], for a key that the built-in prototypes do not define (as
    [error] and [message]): whether [v] has the property itself.  The
    operator throws when [v] is not an object; [null] and [undefined] are
    not. *)
Definition has_property (key : string) (v : option JSON) : option bool :=
  match v with
  | Some (JObject props) => Some (Json.has_key key props)
  | Some (JArray items) =>
      Some (String.eqb key "length"
            || existsb (λ i, String.eqb key (pretty (Z.of_nat i)))
                 (seq 0 (List.length items)))
  | _ => None
  end.

(** [v.key], for such a key: reading a property of [null] or [undefined]
    throws; a value without the property gives [undefined]. *)
Definition get (key : string) (v : option JSON) : option (option JSON) :=
  match v with
  | None | Some JNull => None
  | Some (JObject props) => Some (Json.lookup key props)
  | Some _ => Some None
  end.

(** [ToString(v)].  An array is its elements joined by commas, [null] ones
    as empty strings; an object is [[object Object]], unless a property
    of its own hides [toString], when the conversion throws. *)
Fixpoint ToString (v : JSON) : option string :=
  match v with
  | JNull => Some "null"
  | JBool b => Some (if b then "true" else "false")
  | JNumber n => Some (Number_toString n)
  | JString s => Some s
  | JArray items =>
      match
        (fix each (l : list JSON) : option (list string) :=
           match l with
           | [] => Some []
           | x :: rest =>
               match match x with
                     | JNull => Some EmptyString
                     | _ => ToString x
                     end, each rest with
               | Some s, Some ss => Some (s :: ss)
               | _, _ => None
               end
           end) items
      with
      | Some parts => Some (JsString.join "," parts)
      | None => None
      end
  | JObject props =>
      if Json.has_key "toString" props then None else Some "[object Object]"
  end.

End Js.

(** ** The classes of the program *)

(** [class ApiClient { constructor(public readonly baseUrl: URL) }]: the
    client holds a reference to the URL object it was given. *)
Record ApiClient : Type := mkApiClient {
  baseUrl : loc
}.

(** [class Body { constructor(contentType: string, body: BodyInit) }] *)
Module Body.

Record t : Type := new {
  contentType : string;
  body : string
}.

End Body.

(** [class JsonBody extends Body]:
    [super("application/json", JSON.stringify(json))] *)
Module JsonBody.

Definition new (json : JSON) : Body.t :=
  Body.new "application/json" (Json.stringify json).

End JsonBody.

(** The network: what the platform's [fetch(url, {method, headers, body})]
    resolves to, [None] when it is rejected. *)
Definition transport : Type :=
  URL → string → Headers.t → option string → option Response.

(** [class ApiRequest] *)
Module ApiRequest.

(** The fields; [url] is a reference. *)
Record t : Type := mk {
  api : ApiClient;
  url : loc;
  headers : Headers.t;
  method : string;
  body : option Body.t
}.

(**
<<
    public static concatUrl(baseUrl: URL, path: string) {
        baseUrl.pathname = baseUrl.pathname
          + (baseUrl.pathname.endsWith("/") && path.startsWith("/") ? path.slice(1) : path);
        return baseUrl;
    }
>> *)

(** The string assigned to [baseUrl.pathname]. *)
Definition concat_path (base path : string) : string :=
  base +:+ (if JsString.endsWith "/" base && JsString.startsWith "/" path
            then JsString.slice1 path
            else path).

Definition concatUrl (baseUrl : loc) (path : string) : M loc :=
  let* u := deref baseUrl in
  modify baseUrl (URL_set_pathname (concat_path (pathname u) path)) ;;
  mret baseUrl.

(** The constructor.  [new Headers] and [headers.set] throw a [TypeError]
    on a name or a value that is not valid, which the constructor then
    throws, the URL having been composed already: [None] is that throw.
<<
    this.url = ApiRequest.concatUrl(api.baseUrl, path);
    this.url.search = query.toString();
    this.headers = new Headers(headersInit);
    this.method = method;
    if (body !== undefined && method !== "GET" && method !== "HEAD") {
        this.headers.delete("content-type");
        this.headers.set("content-type", body.contentType);
        this.body = body;
    }
>> *)
Definition new (api : ApiClient) (path : string) (query : URLSearchParams.t)
    (headersInit : list (string * string)) (method : string)
    (body : option Body.t) : M (option t) :=
  let* url := concatUrl (baseUrl api) path in
  modify url (URL_set_search (URLSearchParams.toString query)) ;;
  match Headers.new headersInit with
  | None => mret None
  | Some headers =>
      match body with
      | Some b =>
          if negb (String.eqb method "GET") && negb (String.eqb method "HEAD")
          then
            match Headers.delete "content-type" headers
                  ≫= Headers.set "content-type" (Body.contentType b) with
            | Some headers => mret (Some (mk api url headers method (Some b)))
            | None => mret None
            end
          else mret (Some (mk api url headers method None))
      | None => mret (Some (mk api url headers method None))
      end
  end.

(** The defaults of the optional parameters. *)
Definition default_query : URLSearchParams.t := URLSearchParams.new.
Definition default_headersInit : list (string * string) := [].
Definition default_method : string := "GET".

(** [fetch(this.url, {method, headers, body: this.body?.body})] *)
Definition fetch (network : transport) (r : t) : M (option Response) :=
  let* u := deref (url r) in
  mret (network u (method r) (headers r) (Body.body <$> body r)).

End ApiRequest.

(** [class ApiResponse<T> { constructor(req, res, body: T) }] *)
Module ApiResponse.

Record t : Type := new {
  req : ApiRequest.t;
  res : Response;
  body : JSON
}.

End ApiResponse.

(** ** Exceptions

    What a call throws: the program's own [ApiError], with the envelope it
    carries and its message, a plain [Error] with its message, or one of
    the platform's [TypeError] and [SyntaxError]. *)

Inductive exn : Type :=
| ApiError (res : ApiResponse.t) (message : string)
| Error (message : string)
| TypeError
| SyntaxError.

Inductive outcome (A : Type) : Type :=
| Return (a : A)
| Throw (e : exn).

Arguments Return {A} a.
Arguments Throw {A} e.

Definition obind {A B} (o : outcome A) (k : A → outcome B) : outcome B :=
  match o with
  | Return a => k a
  | Throw e => Throw e
  end.

Notation "'try*' x ':=' c1 'in' c2" := (obind c1 (λ x, c2))
  (at level 10, x name, c1 at level 100, c2 at level 200).

(** An operator's throw is a [TypeError]. *)
Definition or_TypeError {A} (o : option A) : outcome A :=
  match o with
  | Some a => Return a
  | None => Throw TypeError
  end.

(** [class ApiError extends Error]: [super(res.body.error.message)].  The
    message of an [Error] is [ToString] of the argument, and empty for
    [undefined]. *)
Definition new_ApiError (res : ApiResponse.t) : outcome exn :=
  try* error := or_TypeError (Js.get "error" (Some (ApiResponse.body res))) in
  try* message := or_TypeError (Js.get "message" error) in
  try* text := match message with
               | Some m => or_TypeError (Js.ToString m)
               | None => Return EmptyString
               end in
  Return (ApiError res text).

(** [ApiResponse.from]
<<
    const body = await res.json();
    if (!res.ok) {
        if ("error" in body && typeof body === "object" && "message" in body.error)
            throw new ApiError(new ApiResponse(req, res, body));
        else throw new Error(
          `Unknown error response received. status=${res.status} body=${JSON.stringify(body)}`);
    }
    return new ApiResponse<T>(req, res, body);
>> *)

(** The condition of the inner [if], its conjuncts taken left to right. *)
Definition well_formed_error (body : JSON) : outcome bool :=
  try* has_error := or_TypeError (Js.has_property "error" (Some body)) in
  if negb has_error then Return false
  else if negb (String.eqb (Js.typeof body) "object") then Return false
  else
    try* error := or_TypeError (Js.get "error" (Some body)) in
    or_TypeError (Js.has_property "message" error).

Definition unknown_error_message (res : Response) (body : JSON) : string :=
  "Unknown error response received. status=" +:+ Number_toString (status res)
  +:+ " body=" +:+ Json.stringify body.

Definition ApiResponse_from (req : ApiRequest.t) (res : Response)
    : outcome ApiResponse.t :=
  try* body := match json res with
               | Some body => Return body
               | None => Throw SyntaxError
               end in
  if negb (ok res) then
    try* recognized := well_formed_error body in
    if recognized
    then try* e := new_ApiError (ApiResponse.new req res body) in Throw e
    else Throw (Error (unknown_error_message res body))
  else Return (ApiResponse.new req res body).

(** The type of [sort]:
    [`${"title" | "year" | "track_no" | "duration"}:${"asc" | "desc"}`] *)
Module Sort.

Inductive key : Type := title | year | track_no | duration.
Inductive direction : Type := asc | desc.

Definition t : Type := (key * direction)%type.

Definition key_string (k : key) : string :=
  match k with
  | title => "title"
  | year => "year"
  | track_no => "track_no"
  | duration => "duration"
  end.

Definition direction_string (d : direction) : string :=
  match d with
  | asc => "asc"
  | desc => "desc"
  end.

Definition to_string (s : t) : string :=
  key_string (fst s) +:+ ":" +:+ direction_string (snd s).

End Sort.

(** ** [class ApiClient]: the endpoint methods *)

(** One step after another, of which the first may throw: the throw ends
    the method. *)
Definition and_then {A B} (m : M (outcome A)) (k : A → M (outcome B))
    : M (outcome B) :=
  let* o := m in
  match o with
  | Return a => k a
  | Throw e => mret (Throw e)
  end.

Notation "'do*' x ':=' c1 'in' c2" := (and_then c1 (λ x, c2))
  (at level 10, x name, c1 at level 100, c2 at level 200).

Section Client.

Variable network : transport.

(** [private async fetch<T>(req)]:
    [ApiResponse.from<T>(req, await req.fetch())] *)
Definition fetch (this : ApiClient) (req : ApiRequest.t)
    : M (outcome ApiResponse.t) :=
  let* r := ApiRequest.fetch network req in
  match r with
  | Some res => mret (ApiResponse_from req res)
  | None => mret (Throw TypeError)
  end.

(** [new ApiClient.ApiRequest(this, path, query)] and
    [new ApiClient.ApiRequest(this, path)] *)
Definition request (this : ApiClient) (path : string)
    (query : URLSearchParams.t) : M (outcome ApiRequest.t) :=
  let* r := ApiRequest.new this path query ApiRequest.default_headersInit
              ApiRequest.default_method None in
  mret (or_TypeError r).

Definition info (this : ApiClient) : M (outcome ApiResponse.t) :=
  do* req := request this "/" ApiRequest.default_query in
  fetch this req.

Definition listArtists (this : ApiClient) (limit page : option Z)
    : M (outcome ApiResponse.t) :=
  let query := URLSearchParams.new in
  let query := match limit with
               | Some l => URLSearchParams.set "limit" (Number_toString l) query
               | None => query
               end in
  let query := match page with
               | Some p => URLSearchParams.set "page" (Number_toString p) query
               | None => query
               end in
  do* req := request this "/artists" query in
  fetch this req.

Definition getArtists (this : ApiClient) (ids : list string)
    : M (outcome ApiResponse.t) :=
  let usp := URLSearchParams.new in
  let usp := fold_left (λ usp id, URLSearchParams.append "id" id usp) ids usp in
  do* req := request this "/artists" usp in
  fetch this req.

Definition getArtist (this : ApiClient) (id : string)
    : M (outcome ApiResponse.t) :=
  do* req := request this ("/artists/" +:+ id) ApiRequest.default_query in
  fetch this req.

Definition listArtistAlbums (this : ApiClient) (id : string)
    (limit page : option Z) : M (outcome ApiResponse.t) :=
  let query := URLSearchParams.new in
  let query := match limit with
               | Some l => URLSearchParams.set "limit" (Number_toString l) query
               | None => query
               end in
  let query := match page with
               | Some p => URLSearchParams.set "page" (Number_toString p) query
               | None => query
               end in
  do* req := request this ("/artists/" +:+ id +:+ "/albums") query in
  fetch this req.

Definition listArtistTracks (this : ApiClient) (id : string)
    (limit page : option Z) : M (outcome ApiResponse.t) :=
  let query := URLSearchParams.new in
  let query := match limit with
               | Some l => URLSearchParams.set "limit" (Number_toString l) query
               | None => query
               end in
  let query := match page with
               | Some p => URLSearchParams.set "page" (Number_toString p) query
               | None => query
               end in
  do* req := request this ("/artists/" +:+ id +:+ "/tracks") query in
  fetch this req.

Definition listAlbums (this : ApiClient) (limit page : option Z)
    : M (outcome ApiResponse.t) :=
  let query := URLSearchParams.new in
  let query := match limit with
               | Some l => URLSearchParams.set "limit" (Number_toString l) query
               | None => query
               end in
  let query := match page with
               | Some p => URLSearchParams.set "page" (Number_toString p) query
               | None => query
               end in
  do* req := request this "/albums" query in
  fetch this req.

Definition getAlbum (this : ApiClient) (id : string)
    : M (outcome ApiResponse.t) :=
  do* req := request this ("/albums/" +:+ id) ApiRequest.default_query in
  fetch this req.

Definition listAlbumTracks (this : ApiClient) (id : string)
    (limit page : option Z) : M (outcome ApiResponse.t) :=
  let query := URLSearchParams.new in
  let query := match limit with
               | Some l => URLSearchParams.set "limit" (Number_toString l) query
               | None => query
               end in
  let query := match page with
               | Some p => URLSearchParams.set "page" (Number_toString p) query
               | None => query
               end in
  do* req := request this ("/albums/" +:+ id +:+ "/tracks") query in
  fetch this req.

Definition listTracks (this : ApiClient) (limit page : option Z)
    (sort : option Sort.t) : M (outcome ApiResponse.t) :=
  let query := URLSearchParams.new in
  let query := match limit with
               | Some l => URLSearchParams.set "limit" (Number_toString l) query
               | None => query
               end in
  let query := match page with
               | Some p => URLSearchParams.set "page" (Number_toString p) query
               | None => query
               end in
  let query := match sort with
               | Some s => URLSearchParams.set "sort" (Sort.to_string s) query
               | None => query
               end in
  do* req := request this "/tracks" query in
  fetch this req.

Definition getTrack (this : ApiClient) (id : string)
    : M (outcome ApiResponse.t) :=
  do* req := request this ("/tracks/" +:+ id) ApiRequest.default_query in
  fetch this req.

End Client.


(** ** The public operations, as data

    One constructor for each public method with its arguments, so that a
    statement can range over the calls a caller makes. *)

Inductive operation : Type :=
| Info
| ListArtists (limit page : option Z)
| GetArtists (ids : list string)
| GetArtist (id : string)
| ListArtistAlbums (id : string) (limit page : option Z)
| ListArtistTracks (id : string) (limit page : option Z)
| ListAlbums (limit page : option Z)
| GetAlbum (id : string)
| ListAlbumTracks (id : string) (limit page : option Z)
| ListTracks (limit page : option Z) (sort : option Sort.t)
| GetTrack (id : string).

Definition perform (network : transport) (this : ApiClient) (c : operation)
    : M (outcome ApiResponse.t) :=
  match c with
  | Info => info network this
  | ListArtists limit page => listArtists network this limit page
  | GetArtists ids => getArtists network this ids
  | GetArtist id => getArtist network this id
  | ListArtistAlbums id limit page => listArtistAlbums network this id limit page
  | ListArtistTracks id limit page => listArtistTracks network this id limit page
  | ListAlbums limit page => listAlbums network this limit page
  | GetAlbum id => getAlbum network this id
  | ListAlbumTracks id limit page => listAlbumTracks network this id limit page
  | ListTracks limit page sort => listTracks network this limit page sort
  | GetTrack id => getTrack network this id
  end.

(** The list operations, with the [limit], [page] and [sort] they were
    given ([sort] is a parameter of the track listing alone). *)
Definition listing (c : operation)
    : option (option Z * option Z * option Sort.t) :=
  match c with
  | ListArtists limit page
  | ListArtistAlbums _ limit page
  | ListArtistTracks _ limit page
  | ListAlbums limit page
  | ListAlbumTracks _ limit page => Some (limit, page, None)
  | ListTracks limit page sort => Some (limit, page, sort)
  | _ => None
  end.

(** The path an operation asks for. *)
Definition path_of (c : operation) : string :=
  match c with
  | Info => "/"
  | ListArtists _ _ | GetArtists _ => "/artists"
  | GetArtist id => "/artists/" +:+ id
  | ListArtistAlbums id _ _ => "/artists/" +:+ id +:+ "/albums"
  | ListArtistTracks id _ _ => "/artists/" +:+ id +:+ "/tracks"
  | ListAlbums _ _ => "/albums"
  | GetAlbum id => "/albums/" +:+ id
  | ListAlbumTracks id _ _ => "/albums/" +:+ id +:+ "/tracks"
  | ListTracks _ _ _ => "/tracks"
  | GetTrack id => "/tracks/" +:+ id
  end.

(** The name-value pairs of the parameters that were supplied, in the
    order the methods set them. *)
Definition supplied (limit page : option Z) (sort : option Sort.t)
    : URLSearchParams.t :=
  match limit with Some l => [("limit", Number_toString l)] | None => [] end
  ++ match page with Some p => [("page", Number_toString p)] | None => [] end
  ++ match sort with Some s => [("sort", Sort.to_string s)] | None => [] end.

(** The query an operation builds. *)
Definition query_of (c : operation) : URLSearchParams.t :=
  match c with
  | ListArtists limit page
  | ListArtistAlbums _ limit page
  | ListArtistTracks _ limit page
  | ListAlbums limit page
  | ListAlbumTracks _ limit page => supplied limit page None
  | ListTracks limit page sort => supplied limit page sort
  | GetArtists ids => map (λ id, ("id", id)) ids
  | _ => []
  end.

(** What the [search] getter returns once a query has been assigned. *)
Definition search_of (query : URLSearchParams.t) : string :=
  match query with
  | [] => EmptyString
  | _ => "?" +:+ URLSearchParams.toString query
  end.

(** ** What a call leaves and returns *)

(** What a construction returns, the store apart; [None] is its throw. *)
Definition constructed (api : ApiClient) (headersInit : list (string * string))
    (method : string) (body : option Body.t) : option ApiRequest.t :=
  match Headers.new headersInit with
  | None => None
  | Some headers =>
      match body with
      | Some b =>
          if negb (String.eqb method "GET") && negb (String.eqb method "HEAD")
          then
            match Headers.delete "content-type" headers
                  ≫= Headers.set "content-type" (Body.contentType b) with
            | Some headers =>
                Some (ApiRequest.mk api (baseUrl api) headers method (Some b))
            | None => None
            end
          else Some (ApiRequest.mk api (baseUrl api) headers method None)
      | None => Some (ApiRequest.mk api (baseUrl api) headers method None)
      end
  end.

(** The URL object after a construction. *)
Definition composed (u : URL) (path : string) (query : URLSearchParams.t)
    : URL :=
  URL_set_search (URLSearchParams.toString query)
    (URL_set_pathname (ApiRequest.concat_path (pathname u) path) u).

(** The request of the endpoint methods: no header, [GET], no body. *)
Definition plain_request (this : ApiClient) : ApiRequest.t :=
  ApiRequest.mk this (baseUrl this) [] "GET" None.

(** What a call resolves to, given the URL object it reads. *)
Definition response_to (network : transport) (req : ApiRequest.t) (u : URL)
    : outcome ApiResponse.t :=
  match network u (ApiRequest.method req) (ApiRequest.headers req)
          (Body.body <$> ApiRequest.body req) with
  | Some res => ApiResponse_from req res
  | None => Throw TypeError
  end.

(** ** [interface Page<T>]

    [previous] and [next] are [string | null]. *)

Module Page.

Record t (T : Type) : Type := mk {
  page : Z;
  limit : Z;
  total : Z;
  href : string;
  previous : option string;
  next : option string;
  resources : list T
}.

Arguments mk {T}.
Arguments page {T}.
Arguments limit {T}.
Arguments total {T}.
Arguments href {T}.
Arguments previous {T}.
Arguments next {T}.
Arguments resources {T}.

Definition nullable_string (v : JSON) : option (option string) :=
  match v with
  | JNull => Some None
  | JString s => Some (Some s)
  | _ => None
  end.

(** A decoded body read at the type [Page<T>]: the fields of the
    interface, when the body has them at their types. *)
Definition of_json (b : JSON) : option (t JSON) :=
  match b with
  | JObject props =>
      match Json.lookup "page" props, Json.lookup "limit" props,
            Json.lookup "total" props, Json.lookup "href" props,
            Json.lookup "previous" props ≫= nullable_string,
            Json.lookup "next" props ≫= nullable_string,
            Json.lookup "resources" props with
      | Some (JNumber p), Some (JNumber l), Some (JNumber n),
        Some (JString h), Some prev, Some nxt, Some (JArray rs) =>
          Some (mk p l n h prev nxt rs)
      | _, _, _, _, _, _, _ => None
      end
  | _ => None
  end.

(** The invariant of the specification: no more resources than [limit];
    [previous] is null exactly on page 1; [next] is null exactly on the
    last page, when nothing of [total] remains beyond [page * limit]. *)
Definition invariant {T} (p : t T) : Prop :=
  Z.of_nat (List.length (resources p)) <= limit p
  ∧ (previous p = None ↔ page p = 1)
  ∧ (next p = None ↔ total p <= page p * limit p).

End Page.

(** ** The separator of the specification

    A base path and a relative path joined with exactly one slash between
    them, whichever side supplies it: what is left of the base path
    without the slashes that end it, one slash, and what is left of the
    relative path without the slashes that start it. *)

Fixpoint strip_trailing_slashes (s : string) : string :=
  match s with
  | EmptyString => EmptyString
  | String c t =>
      let t' := strip_trailing_slashes t in
      if Ascii.eqb c "/" && String.eqb t' EmptyString then EmptyString
      else String c t'
  end.

Fixpoint strip_leading_slashes (s : string) : string :=
  match s with
  | EmptyString => EmptyString
  | String c t => if Ascii.eqb c "/" then strip_leading_slashes t else s
  end.

Definition join_with_one_slash (base rel : string) : string :=
  strip_trailing_slashes base +:+ "/" +:+ strip_leading_slashes rel.

(** A path that ends with at most one slash, and one that starts with at
    most one. *)
Definition at_most_one_trailing_slash (s : string) : bool :=
  String.eqb s (strip_trailing_slashes s)
  || String.eqb s (strip_trailing_slashes s +:+ "/").

Definition at_most_one_leading_slash (s : string) : bool :=
  String.eqb s (strip_leading_slashes s)
  || String.eqb s ("/" +:+ strip_leading_slashes s).

(** The values that are not objects: [null], booleans, numbers and
    strings. *)
Definition primitive (v : JSON) : bool :=
  match v with
  | JObject _ | JArray _ => false
  | _ => true
  end.

(** ** A client and its store

    [new ApiClient(new URL(...))]: a store holding the URL object alone,
    and the client that was given it. *)

Definition store_with (u : URL) : gmap loc URL := {[ 1%positive := u ]}.

Definition client : ApiClient := mkApiClient 1%positive.

(** A network whose server answers every request with [res]. *)
Definition server (res : Response) : transport := λ _ _ _ _, Some res.

(** The client's URL object once a call has been made. *)
Definition url_after {A} (call : M A) (this : ApiClient) (h : gmap loc URL)
    : option URL :=
  match call h with
  | Some (_, h') => h' !! baseUrl this
  | None => None
  end.

(** The body a call returns, read as a page. *)
Definition page_returned (call : M (outcome ApiResponse.t))
    (h : gmap loc URL) : option (Page.t JSON) :=
  match call h with
  | Some (Return env, _) => Page.of_json (ApiResponse.body env)
  | _ => None
  end.

(** A body with the fields of a page, as a server may send it: page 1 of
    two resources, one per page, that holds both resources and names a
    previous page but no next one. *)
Definition unchecked_page : JSON :=
  JObject [("page", JNumber 1); ("limit", JNumber 1); ("total", JNumber 2);
           ("href", JString "/artists");
           ("previous", JString "/artists?page=0");
           ("next", JNull);
           ("resources",
            JArray [JObject [("id", JString "a1"); ("name", JString "A");
                             ("image", JNull)];
                    JObject [("id", JString "a2"); ("name", JString "B");
                             ("image", JNull)]])].

(** The path of the URL a composition returns. *)
Definition composed_path (base : URL) (path : string) : option string :=
  match ApiRequest.concatUrl (baseUrl client) path (store_with base) with
  | Some (l, h) => pathname <$> h !! l
  | None => None
  end.


(** ** Runs of several calls, and observations on them *)

(** The calls of a list, made one after the other on the same client. *)
Fixpoint perform_all (network : transport) (this : ApiClient)
    (cs : list operation) : M (list (outcome ApiResponse.t)) :=
  match cs with
  | [] => mret []
  | c :: rest =>
      let* o := perform network this c in
      let* os := perform_all network this rest in
      mret (o :: os)
  end.

(** A network whose server answers [res] to [GET] and nothing else. *)
Definition get_only (res : Response) : transport :=
  λ _ method _ _, if String.eqb method "GET" then Some res else None.

(** A network whose server answers with a description of the request it
    was sent: the path and query of its URL, its method, its
    [content-type] header and its body. *)
Definition echo : transport :=
  λ u method headers body,
    Some (mkResponse 200
            (Some (JObject
                     [("path", JString (pathname u +:+ search u));
                      ("method", JString method);
                      ("content-type",
                       match Headers.get "content-type" headers with
                       | Some (Some v) => JString v
                       | _ => JNull
                       end);
                      ("body", match body with
                               | Some b => JString b
                               | None => JNull
                               end)]))).

(** A network on which every [fetch] is rejected. *)
Definition unreachable : transport := λ _ _ _ _, None.

(** A network on which the [fetch] of the URLs of one path is rejected,
    and whose server answers the others with an empty JSON object. *)
Definition down_at (path : string) : transport :=
  λ u _ _ _,
    if String.eqb (pathname u) path then None
    else Some (mkResponse 200 (Some (JObject []))).

(** Whether the URL parser leaves a path unchanged. *)
Definition plain_path (p : string) : bool := String.eqb (UrlPath.parse p) p.

(** How many times a character occurs in a string. *)
Fixpoint occurrences (c : ascii) (s : string) : nat :=
  match s with
  | EmptyString => 0%nat
  | String d t => ((if Ascii.eqb d c then 1 else 0) + occurrences c t)%nat
  end.

(** ** Paths in normal form

    The segments the path state produces: their characters are neither
    separators nor in the percent-encode set, and they are not dot
    segments. *)

Definition clean_char (c : ascii) : bool :=
  negb (UrlPath.is_separator c) && negb (UrlPath.in_encode_set c).

Fixpoint all_clean (s : string) : bool :=
  match s with
  | EmptyString => true
  | String c rest => clean_char c && all_clean rest
  end.

Definition good_segment (s : string) : bool :=
  all_clean s && negb (UrlPath.single_dot s) && negb (UrlPath.double_dot s).

Definition normal (path : list string) : Prop :=
  path ≠ [] ∧ Forall (λ s, good_segment s = true) path.

(** The segments of a path joined by slashes, without the first slash. *)
Definition segments_joined (path : list string) : string :=
  String.concat "/" path.

(** Whether a string ends with a decimal digit, as the index of an array
    element does. *)
Definition ends_with_digit (s : string) : bool :=
  existsb (λ d, JsString.endsWith (String d EmptyString) s)
    (list_ascii_of_string "0123456789").

(** * Properties *)

(** ** Strings *)

Lemma append_String c s t : String c s +:+ t = String c (s +:+ t).
Proof. reflexivity. Qed.

Lemma endsWith_slash_String c t :
  t ≠ EmptyString →
  JsString.endsWith "/" (String c t) = JsString.endsWith "/" t.
Proof.
  intros Ht. destruct t as [|d t]; [done|].
  change (JsString.endsWith "/" (String c (String d t)))
    with (String.eqb "/" (String c (String d t))
          || JsString.endsWith "/" (String d t)).
  replace (String.eqb "/" (String c (String d t))) with false; [done|].
  symmetry. apply String.eqb_neq. intros [= _ ?].
Qed.

Lemma endsWith_slash_single c :
  JsString.endsWith "/" (String c EmptyString) = Ascii.eqb c "/".
Proof.
  destruct (Ascii.eqb_spec c "/") as [->|Hc]; [done|].
  change (String.eqb "/" (String c EmptyString) || false = false).
  rewrite orb_false_r. apply String.eqb_neq. congruence.
Qed.

Lemma startsWith_slash s :
  JsString.startsWith "/" s = true → s = String "/" (JsString.slice1 s).
Proof.
  destruct s as [|c t]; [done|].
  change (JsString.startsWith "/" (String c t)) with (Ascii.eqb "/" c && true).
  rewrite andb_true_r. by intros <-%Ascii.eqb_eq.
Qed.

Lemma append_assoc (a b c : string) : (a +:+ b) +:+ c = a +:+ (b +:+ c).
Proof. induction a as [|x a IH]; [done|]. by rewrite !append_String, IH. Qed.

Lemma append_empty_r s : s +:+ EmptyString = s.
Proof. induction s as [|c s IH]; [done|]. by rewrite append_String, IH. Qed.

Lemma endsWith_append p t : JsString.endsWith p (t +:+ p) = true.
Proof.
  induction t as [|c t IH].
  - change (EmptyString +:+ p) with p. destruct p as [|c p]; [done|].
    cbn [JsString.endsWith]. by rewrite String.eqb_refl.
  - rewrite append_String. cbn [JsString.endsWith]. rewrite IH.
    apply orb_true_r.
Qed.

Lemma endsWith_slash_append_nonempty a s :
  s ≠ EmptyString →
  JsString.endsWith "/" (a +:+ s) = JsString.endsWith "/" s.
Proof.
  intros Hs. induction a as [|c a IH]; [done|].
  rewrite append_String, endsWith_slash_String; [done|].
  destruct a; [done|]. by rewrite append_String.
Qed.

(** ** The separator of the specification *)

Lemma strip_trailing_slashes_no_slash s :
  JsString.endsWith "/" (strip_trailing_slashes s) = false.
Proof.
  induction s as [|c t IH]; [done|]. cbn [strip_trailing_slashes].
  destruct (Ascii.eqb_spec c "/") as [->|Hc];
    destruct (String.eqb_spec (strip_trailing_slashes t) EmptyString) as [Ht|Ht];
    cbn [andb]; try done.
  - by rewrite endsWith_slash_String.
  - rewrite Ht, endsWith_slash_single. by apply Ascii.eqb_neq.
  - by rewrite endsWith_slash_String.
Qed.

Lemma strip_leading_slashes_no_slash s :
  JsString.startsWith "/" (strip_leading_slashes s) = false.
Proof.
  induction s as [|c t IH]; [done|]. cbn [strip_leading_slashes].
  destruct (Ascii.eqb_spec c "/") as [->|Hc]; [done|].
  change (JsString.startsWith "/" (String c t)) with (Ascii.eqb "/" c && true).
  rewrite andb_true_r. apply Ascii.eqb_neq. congruence.
Qed.

(** The string the composer assigns, when each side has at most one slash
    at the joint. *)
Lemma assigned_with_single_slashes base rel :
  at_most_one_trailing_slash base = true →
  at_most_one_leading_slash rel = true →
  base +:+ (if JsString.endsWith "/" base && JsString.startsWith "/" rel
            then JsString.slice1 rel else rel)
  = if JsString.endsWith "/" base || JsString.startsWith "/" rel
    then join_with_one_slash base rel
    else base +:+ rel.
Proof.
  unfold at_most_one_trailing_slash, at_most_one_leading_slash,
    join_with_one_slash.
  pose proof (strip_trailing_slashes_no_slash base) as Hb0.
  pose proof (strip_leading_slashes_no_slash rel) as Hr0.
  set (b0 := strip_trailing_slashes base) in *.
  set (r0 := strip_leading_slashes rel) in *. clearbody b0 r0.
  intros [Hb|Hb]%orb_prop [Hr|Hr]%orb_prop;
    apply String.eqb_eq in Hb, Hr; subst base rel.
  - by rewrite Hb0, Hr0.
  - rewrite Hb0. cbn [andb orb]. by rewrite append_String.
  - rewrite Hr0, andb_false_r, orb_false_r, endsWith_append.
    by rewrite append_assoc.
  - rewrite endsWith_append. rewrite append_String at 1 2.
    change (JsString.startsWith "/" (String "/" (EmptyString +:+ r0))) with true.
    cbn [andb orb JsString.slice1]. by rewrite append_assoc.
Qed.

(** ** The URL parser on paths: normal forms *)

Lemma all_clean_append a b : all_clean (a +:+ b) = all_clean a && all_clean b.
Proof.
  induction a as [|c a IH]; [done|]. rewrite append_String. cbn [all_clean].
  by rewrite IH, andb_assoc.
Qed.

Lemma percent_encode_clean c :
  UrlPath.is_separator c = false → all_clean (UrlPath.percent_encode c) = true.
Proof. destruct c as [[] [] [] [] [] [] [] []]; by vm_compute. Qed.

Lemma percent_encode_clean_char c :
  clean_char c = true → UrlPath.percent_encode c = String c EmptyString.
Proof.
  unfold clean_char, UrlPath.percent_encode. intros [_ H]%andb_prop.
  apply negb_true_iff in H. by rewrite H.
Qed.

Lemma clean_char_not_separator c :
  clean_char c = true → UrlPath.is_separator c = false.
Proof. unfold clean_char. intros [H _]%andb_prop. by apply negb_true_iff in H. Qed.

Lemma clean_char_not_tab_newline c :
  clean_char c = true → UrlPath.is_tab_or_newline c = false.
Proof. destruct c as [[] [] [] [] [] [] [] []]; by vm_compute. Qed.

Lemma clean_char_not_slash c : clean_char c = true → Ascii.eqb c "/" = false.
Proof. destruct c as [[] [] [] [] [] [] [] []]; by vm_compute. Qed.

Lemma good_segment_clean s : good_segment s = true → all_clean s = true.
Proof. unfold good_segment. by intros [[? _]%andb_prop _]%andb_prop. Qed.

Lemma Forall_removelast {A} (P : A → Prop) (l : list A) :
  Forall P l → Forall P (removelast l).
Proof.
  induction 1 as [|x l Hx Hl IH]; [done|]. cbn.
  destruct l; [done|]. by constructor.
Qed.

Lemma end_segment_good at_end path buffer :
  Forall (λ s, good_segment s = true) path → all_clean buffer = true →
  Forall (λ s, good_segment s = true) (UrlPath.end_segment at_end path buffer).
Proof.
  intros Hp Hb. unfold UrlPath.end_segment, UrlPath.shorten.
  destruct (UrlPath.double_dot buffer) eqn:Hdd.
  { destruct at_end; [apply Forall_app; split|]; auto using Forall_removelast. }
  destruct (UrlPath.single_dot buffer) eqn:Hsd.
  { destruct at_end; [apply Forall_app; split|]; auto. }
  apply Forall_app. split; [done|]. constructor; [|done].
  unfold good_segment. by rewrite Hb, Hsd, Hdd.
Qed.

Lemma end_segment_at_end_nonempty path buffer :
  UrlPath.end_segment true path buffer ≠ [].
Proof.
  unfold UrlPath.end_segment.
  destruct (UrlPath.double_dot buffer); [by destruct (UrlPath.shorten path)|].
  destruct (UrlPath.single_dot buffer); by destruct path.
Qed.

Lemma path_state_normal input :
  ∀ path buffer,
    Forall (λ s, good_segment s = true) path → all_clean buffer = true →
    normal (UrlPath.path_state input path buffer).
Proof.
  induction input as [|c rest IH]; intros path buffer Hp Hb;
    cbn [UrlPath.path_state].
  - split; [apply end_segment_at_end_nonempty|by apply end_segment_good].
  - destruct (UrlPath.is_separator c) eqn:Hc.
    + apply IH; [by apply end_segment_good|done].
    + apply IH; [done|]. by rewrite all_clean_append, Hb, percent_encode_clean.
Qed.

Lemma path_state_clean_segment s :
  all_clean s = true →
  ∀ rest path buffer,
    UrlPath.path_state (s +:+ rest) path buffer
    = UrlPath.path_state rest path (buffer +:+ s).
Proof.
  induction s as [|c s IH]; intros Hs rest path buffer.
  - by rewrite append_empty_r.
  - cbn [all_clean] in Hs. apply andb_prop in Hs as [Hc Hs].
    rewrite append_String. cbn [UrlPath.path_state].
    rewrite (clean_char_not_separator _ Hc), (percent_encode_clean_char _ Hc).
    rewrite IH by done. by rewrite append_assoc.
Qed.

Lemma end_segment_good_segment at_end path s :
  good_segment s = true → UrlPath.end_segment at_end path s = path ++ [s].
Proof.
  unfold good_segment, UrlPath.end_segment.
  intros [[_ Hs]%andb_prop Hd]%andb_prop.
  apply negb_true_iff in Hs, Hd. by rewrite Hd, Hs.
Qed.

Lemma serialize_segments_joined path :
  path ≠ [] → UrlPath.serialize path = String "/" (segments_joined path).
Proof.
  induction path as [|s path IH]; [done|intros _]. cbn [UrlPath.serialize].
  destruct path as [|s' path].
  - cbn. by rewrite append_empty_r.
  - rewrite IH by done. unfold segments_joined. cbn [String.concat].
    by rewrite append_String.
Qed.

Lemma serialize_app p q :
  UrlPath.serialize (p ++ q) = UrlPath.serialize p +:+ UrlPath.serialize q.
Proof.
  induction p as [|s p IH]; [done|]. cbn [app UrlPath.serialize].
  by rewrite IH, !append_String, append_assoc.
Qed.

Lemma segments_joined_cons s s' path :
  segments_joined (s :: s' :: path)
  = s +:+ String "/" (segments_joined (s' :: path)).
Proof. reflexivity. Qed.

Lemma path_state_separator rest path buffer :
  UrlPath.path_state (String "/" rest) path buffer
  = UrlPath.path_state rest (UrlPath.end_segment false path buffer) EmptyString.
Proof. reflexivity. Qed.

Lemma path_state_segments_joined path :
  Forall (λ s, good_segment s = true) path → path ≠ [] →
  ∀ acc,
    UrlPath.path_state (segments_joined path) acc EmptyString = acc ++ path.
Proof.
  induction 1 as [|s path Hs Hpath IH]; [done|intros _ acc].
  pose proof (good_segment_clean _ Hs) as Hclean.
  destruct path as [|s' path].
  - change (segments_joined [s]) with s.
    rewrite <- (append_empty_r s) at 1.
    rewrite path_state_clean_segment by done. cbn [UrlPath.path_state].
    change (EmptyString +:+ s) with s. by apply end_segment_good_segment.
  - rewrite segments_joined_cons, path_state_clean_segment,
      path_state_separator by done.
    change (EmptyString +:+ s) with s.
    rewrite end_segment_good_segment by done.
    rewrite IH by done. by rewrite <- app_assoc.
Qed.

Lemma strip_tab_newline_append a b :
  UrlPath.strip_tab_newline (a +:+ b)
  = UrlPath.strip_tab_newline a +:+ UrlPath.strip_tab_newline b.
Proof.
  induction a as [|c a IH]; [done|]. rewrite append_String.
  cbn [UrlPath.strip_tab_newline].
  destruct (UrlPath.is_tab_or_newline c); [done|]. by rewrite append_String, IH.
Qed.

Lemma strip_tab_newline_clean s :
  all_clean s = true → UrlPath.strip_tab_newline s = s.
Proof.
  induction s as [|c s IH]; [done|]. cbn [all_clean]. intros [Hc Hs]%andb_prop.
  cbn [UrlPath.strip_tab_newline].
  by rewrite (clean_char_not_tab_newline _ Hc), IH.
Qed.

Lemma strip_tab_newline_serialize path :
  Forall (λ s, good_segment s = true) path →
  UrlPath.strip_tab_newline (UrlPath.serialize path) = UrlPath.serialize path.
Proof.
  induction 1 as [|s path Hs Hpath IH]; [done|]. cbn [UrlPath.serialize].
  rewrite append_String.
  change (UrlPath.strip_tab_newline (String "/" (s +:+ UrlPath.serialize path)))
    with (String "/" (UrlPath.strip_tab_newline (s +:+ UrlPath.serialize path))).
  rewrite strip_tab_newline_append, IH, strip_tab_newline_clean; [done|].
  by apply good_segment_clean.
Qed.

(** A path in normal form is left as it is. *)
Lemma parse_serialize path :
  normal path → UrlPath.parse (UrlPath.serialize path) = UrlPath.serialize path.
Proof.
  intros [Hne Hgood]. unfold UrlPath.parse.
  rewrite strip_tab_newline_serialize by done.
  rewrite (serialize_segments_joined _ Hne) at 1.
  change (UrlPath.path_start (String "/" (segments_joined path)))
    with (segments_joined path).
  rewrite path_state_segments_joined by done. done.
Qed.

(** The parser produces paths in normal form. *)
Lemma parse_normal s :
  ∃ path, normal path ∧ UrlPath.parse s = UrlPath.serialize path.
Proof. eexists. split; [|reflexivity]. by apply path_state_normal. Qed.

Lemma parse_idempotent s : UrlPath.parse (UrlPath.parse s) = UrlPath.parse s.
Proof. destruct (parse_normal s) as (path & Hn & ->). by apply parse_serialize. Qed.

Lemma parse_fixed_normal s :
  UrlPath.parse s = s → ∃ path, normal path ∧ s = UrlPath.serialize path.
Proof.
  intros Hs. destruct (parse_normal s) as (path & Hn & Hp).
  exists path. split; [done|congruence].
Qed.

Lemma all_clean_no_trailing_slash s :
  all_clean s = true → JsString.endsWith "/" s = false.
Proof.
  induction s as [|c t IH]; [done|]. cbn [all_clean]. intros [Hc Ht]%andb_prop.
  destruct t as [|d t].
  - rewrite endsWith_slash_single. by apply clean_char_not_slash.
  - rewrite endsWith_slash_String by done. by apply IH.
Qed.

(** A path in normal form ends with a slash exactly when its last segment
    is empty. *)
Lemma serialize_ends_with_slash path :
  normal path →
  JsString.endsWith "/" (UrlPath.serialize path) = true →
  ∃ front, path = front ++ [EmptyString]
           ∧ Forall (λ s, good_segment s = true) front.
Proof.
  intros [Hne Hgood] Hend.
  destruct (exists_last Hne) as (front & s & ->).
  apply Forall_app in Hgood as [Hfront Hs]. apply Forall_inv in Hs.
  exists front. split; [|done]. f_equal. f_equal.
  destruct s as [|c s]; [done|exfalso].
  rewrite serialize_app in Hend. cbn [UrlPath.serialize] in Hend.
  rewrite append_empty_r, endsWith_slash_append_nonempty in Hend by done.
  rewrite endsWith_slash_String in Hend by done.
  by rewrite all_clean_no_trailing_slash in Hend by by apply good_segment_clean.
Qed.

(** Composing two paths in normal form gives a path in normal form. *)
Lemma concat_path_normal base path p q :
  normal p → normal q →
  base = UrlPath.serialize p → path = UrlPath.serialize q →
  ∃ r, normal r ∧ ApiRequest.concat_path base path = UrlPath.serialize r.
Proof.
  intros Hp Hq -> ->. unfold ApiRequest.concat_path.
  pose proof (serialize_segments_joined q (proj1 Hq)) as Hjoined.
  replace (JsString.startsWith "/" (UrlPath.serialize q)) with true
    by by rewrite Hjoined.
  replace (JsString.slice1 (UrlPath.serialize q)) with (segments_joined q)
    by by rewrite Hjoined.
  rewrite andb_true_r.
  destruct (JsString.endsWith "/" (UrlPath.serialize p)) eqn:Hend.
  - destruct (serialize_ends_with_slash p Hp Hend) as (front & -> & Hfront).
    exists (front ++ q). split.
    + destruct Hq as [Hne Hq]. split; [by destruct front, q|].
      by apply Forall_app.
    + rewrite !serialize_app, Hjoined.
      cbn [UrlPath.serialize]. rewrite append_empty_r, append_assoc. done.
  - exists (p ++ q). split.
    + destruct Hp as [Hne Hp], Hq as [_ Hq]. split; [by destruct p|].
      by apply Forall_app.
    + by rewrite serialize_app.
Qed.

(** Composing paths that the parser leaves as they are gives one that it
    leaves as it is. *)
Lemma parse_concat_path base path :
  UrlPath.parse base = base → UrlPath.parse path = path →
  UrlPath.parse (ApiRequest.concat_path base path)
  = ApiRequest.concat_path base path.
Proof.
  intros (p & Hp & Hb)%parse_fixed_normal (q & Hq & Hpath)%parse_fixed_normal.
  destruct (concat_path_normal base path p q Hp Hq Hb Hpath) as (r & Hr & ->).
  by apply parse_serialize.
Qed.

Lemma parse_pathname u : UrlPath.parse (pathname u) = pathname u.
Proof. apply parse_idempotent. Qed.

(** ** The URL composer *)

Lemma concatUrl_run l path h u :
  h !! l = Some u →
  ApiRequest.concatUrl l path h
  = Some (l, <[l := URL_set_pathname
                     (ApiRequest.concat_path (pathname u) path) u]> h).
Proof.
  intros Hl. unfold ApiRequest.concatUrl, mbind, deref, modify, mret.
  by rewrite !Hl.
Qed.

Lemma pathname_set_pathname p u :
  pathname (URL_set_pathname p u) = UrlPath.parse p.
Proof. apply parse_idempotent. Qed.

Lemma pathname_composed u path query :
  pathname (composed u path query)
  = UrlPath.parse (ApiRequest.concat_path (pathname u) path).
Proof. apply parse_idempotent. Qed.

Lemma origin_composed u path query :
  origin (composed u path query) = origin u.
Proof. done. Qed.

Lemma new_run api path query headersInit method body h u :
  h !! baseUrl api = Some u →
  ApiRequest.new api path query headersInit method body h
  = Some (constructed api headersInit method body,
          <[baseUrl api := composed u path query]> h).
Proof.
  intros Hl. unfold ApiRequest.new, mbind.
  rewrite (concatUrl_run _ _ _ _ Hl).
  unfold modify. rewrite lookup_insert_eq, insert_insert_eq.
  unfold constructed, composed, mret.
  destruct (Headers.new headersInit) as [headers|]; [|done].
  destruct body as [b|]; [|done].
  destruct (negb (String.eqb method "GET") && negb (String.eqb method "HEAD"));
    [|done].
  by destruct (Headers.delete "content-type" headers ≫= _).
Qed.

(** ** The query string *)

Lemma encode_head s :
  URLSearchParams.encode s = EmptyString
  ∨ ∃ c t, URLSearchParams.encode s = String c t ∧ c ≠ "?"%char.
Proof.
  destruct s as [|c s]; [by left|right].
  cbn [URLSearchParams.encode].
  destruct (URLSearchParams.unreserved c) eqn:Hc.
  - eexists _, _. split; [by rewrite append_String|].
    intros ->. by vm_compute in Hc.
  - destruct (Ascii.eqb c " "); eexists _, _;
      (split; [by rewrite append_String|done]).
Qed.

Lemma toString_head (query : URLSearchParams.t) :
  query ≠ [] →
  ∃ c t, URLSearchParams.toString query = String c t ∧ c ≠ "?"%char.
Proof.
  destruct query as [|[n v] rest]; [done|intros _].
  unfold URLSearchParams.toString, JsString.join.
  cbn [map String.concat fst snd].
  assert (∃ c t, URLSearchParams.encode n +:+ "=" +:+ URLSearchParams.encode v
                 = String c t ∧ c ≠ "?"%char) as (c & t & Heq & Hc).
  { destruct (encode_head n) as [->|(c & t & -> & Hc)].
    - by eexists _, _.
    - eexists _, _. by rewrite append_String. }
  rewrite Heq. destruct (map _ rest); [by eexists _, _|].
  eexists _, _. by rewrite append_String.
Qed.

Lemma URL_set_search_plain c t u :
  c ≠ "?"%char → search (URL_set_search (String c t) u) = "?" +:+ String c t.
Proof.
  intros Hc. destruct c as [[] [] [] [] [] [] [] []]; done.
Qed.

Lemma search_composed u path query :
  search (composed u path query) = search_of query.
Proof.
  unfold composed. destruct query as [|p rest]; [done|].
  destruct (toString_head (p :: rest)) as (c & t & Heq & Hc); [done|].
  unfold search_of. rewrite Heq. by apply URL_set_search_plain.
Qed.

(** ** The endpoint methods *)

Section ClientFacts.

Variable network : transport.

Lemma fetch_run this req h u :
  h !! ApiRequest.url req = Some u →
  fetch network this req h = Some (response_to network req u, h).
Proof.
  intros Hl. unfold fetch, ApiRequest.fetch, mbind, deref, mret, response_to.
  rewrite Hl. by destruct (network _ _ _ _).
Qed.

Lemma fold_append_ids (ids : list string) (usp : URLSearchParams.t) :
  fold_left (λ usp id, URLSearchParams.append "id" id usp) ids usp
  = usp ++ map (λ id, ("id", id)) ids.
Proof.
  revert usp. induction ids as [|id ids IH]; intros usp; cbn.
  - by rewrite app_nil_r.
  - rewrite IH. unfold URLSearchParams.append. by rewrite <- app_assoc.
Qed.

Lemma perform_request this c :
  perform network this c
  = (do* req := request this (path_of c) (query_of c) in
     fetch network this req).
Proof.
  destruct c as [|l p|ids| |? l p|? l p|l p| |? l p|l p s|]; try done;
    try (by destruct l, p); try (by destruct l, p, s).
  cbn. unfold getArtists. by rewrite fold_append_ids.
Qed.

Lemma request_run this path query h u :
  h !! baseUrl this = Some u →
  request this path query h
  = Some (Return (plain_request this),
          <[baseUrl this := composed u path query]> h).
Proof.
  intros Hl. unfold request, mbind. by rewrite (new_run _ _ _ _ _ _ _ _ Hl).
Qed.

Lemma perform_run this c h u :
  h !! baseUrl this = Some u →
  perform network this c h
  = Some (response_to network (plain_request this)
            (composed u (path_of c) (query_of c)),
          <[baseUrl this := composed u (path_of c) (query_of c)]> h).
Proof.
  intros Hl. rewrite perform_request. unfold and_then, mbind.
  rewrite (request_run _ _ _ _ _ Hl).
  apply fetch_run. cbn. apply lookup_insert_eq.
Qed.

End ClientFacts.

(** ** Headers *)

Lemma Headers_named_self name v :
  Headers.named name (JsString.toLowerCase name, v) = true.
Proof. apply String.eqb_refl. Qed.

Lemma Headers_filter_deleted name (h : Headers.t) :
  List.filter (Headers.named name)
    (List.filter (λ p, negb (Headers.named name p)) h) = [].
Proof.
  induction h as [|p h IH]; [done|].
  cbn [List.filter]. destruct (Headers.named name p) eqn:Hp; cbn [negb]; [done|].
  cbn [List.filter]. by rewrite Hp.
Qed.

Lemma Headers_set_in_absent name v (h : Headers.t) :
  List.filter (Headers.named name) h = [] →
  Headers.set_in name v h = h ++ [(JsString.toLowerCase name, v)].
Proof.
  induction h as [|p h IH]; [done|].
  cbn [List.filter Headers.set_in]. destruct (Headers.named name p); [done|].
  intros Hh. by rewrite IH.
Qed.

(** Deleting and then setting the content type, when the value is valid. *)
Lemma Headers_force_content_type v (h : Headers.t) :
  Headers.valid_value (Headers.normalize v) = true →
  Headers.delete "content-type" h ≫= Headers.set "content-type" v
  = Some (List.filter (λ p, negb (Headers.named "content-type" p)) h
          ++ [("content-type", Headers.normalize v)]).
Proof.
  intros Hv.
  change (Headers.delete "content-type" h)
    with (Some (List.filter (λ p, negb (Headers.named "content-type" p)) h)).
  unfold Headers.set.
  change (Headers.valid_name "content-type") with true. rewrite Hv. cbn [andb].
  unfold base.mbind, option_bind.
  by rewrite Headers_set_in_absent by apply Headers_filter_deleted.
Qed.

Lemma Headers_force_content_type_invalid v (h : Headers.t) :
  Headers.valid_value (Headers.normalize v) = false →
  Headers.delete "content-type" h ≫= Headers.set "content-type" v = None.
Proof.
  intros Hv.
  change (Headers.delete "content-type" h)
    with (Some (List.filter (λ p, negb (Headers.named "content-type" p)) h)).
  unfold Headers.set. by rewrite Hv, andb_false_r.
Qed.

Lemma Headers_get_forced v (h : Headers.t) :
  Headers.get "content-type"
    (List.filter (λ p, negb (Headers.named "content-type" p)) h
     ++ [("content-type", v)])
  = Some (Some v).
Proof.
  unfold Headers.get. change (Headers.valid_name "content-type") with true.
  cbn iota. rewrite List.filter_app, Headers_filter_deleted. done.
Qed.

Lemma Headers_filter_delete_other name name' (h : Headers.t) :
  JsString.toLowerCase name ≠ JsString.toLowerCase name' →
  List.filter (Headers.named name)
    (List.filter (λ p, negb (Headers.named name' p)) h)
  = List.filter (Headers.named name) h.
Proof.
  intros Hne. induction h as [|p h IH]; [done|].
  cbn [List.filter].
  destruct (Headers.named name' p) eqn:Hp', (Headers.named name p) eqn:Hp;
    cbn [negb List.filter]; rewrite ?Hp, ?IH; try done.
  apply String.eqb_eq in Hp, Hp'. congruence.
Qed.

Lemma Headers_get_other name v (h : Headers.t) :
  JsString.toLowerCase name ≠ "content-type" →
  Headers.get name
    (List.filter (λ p, negb (Headers.named "content-type" p)) h
     ++ [("content-type", v)])
  = Headers.get name h.
Proof.
  intros Hne. unfold Headers.get. destruct (Headers.valid_name name); [|done].
  rewrite List.filter_app, Headers_filter_delete_other by done.
  cbn [List.filter]. unfold Headers.named at 2. cbn [fst].
  replace (String.eqb "content-type" (JsString.toLowerCase name)) with false;
    [by rewrite app_nil_r|].
  symmetry. apply String.eqb_neq. congruence.
Qed.

(** ** The classifier *)

Lemma lookup_has_key key props v :
  Json.lookup key props = Some v → Json.has_key key props = true.
Proof.
  unfold Json.has_key. induction props as [|[k w] props IH]; [done|].
  cbn [Json.lookup existsb fst]. destruct (String.eqb k key); [done|].
  intros Hl. by rewrite IH.
Qed.

Lemma lookup_None_has_key key props :
  Json.lookup key props = None → Json.has_key key props = false.
Proof.
  unfold Json.has_key. induction props as [|[k w] props IH]; [done|].
  cbn [Json.lookup existsb fst]. destruct (String.eqb k key); [done|].
  intros Hl. by rewrite IH.
Qed.

(** An object without an [error] property is not understood: the generic
    [Error], with the status and the body as JSON text. *)
Lemma from_object_without_error req res props :
  ok res = false →
  json res = Some (JObject props) →
  Json.lookup "error" props = None →
  ApiResponse_from req res
  = Throw (Error (unknown_error_message res (JObject props))).
Proof.
  intros Hok Hjson Herr. unfold ApiResponse_from, well_formed_error.
  rewrite Hjson, Hok. cbn.
  by rewrite (lookup_None_has_key _ _ Herr).
Qed.

(** So is an object whose [error] is an object without a [message]. *)
Lemma from_error_without_message req res props eprops :
  ok res = false →
  json res = Some (JObject props) →
  Json.lookup "error" props = Some (JObject eprops) →
  Json.lookup "message" eprops = None →
  ApiResponse_from req res
  = Throw (Error (unknown_error_message res (JObject props))).
Proof.
  intros Hok Hjson Herr Hmsg. unfold ApiResponse_from, well_formed_error.
  rewrite Hjson, Hok. cbn.
  rewrite (lookup_has_key _ _ _ Herr), Herr. cbn.
  by rewrite (lookup_None_has_key _ _ Hmsg).
Qed.

Lemma from_ok_response req res body :
  ok res = true →
  json res = Some body →
  ApiResponse_from req res = Return (ApiResponse.new req res body).
Proof.
  intros Hok Hjson. unfold ApiResponse_from. by rewrite Hjson, Hok.
Qed.

Lemma url_constructed api headersInit method body r :
  constructed api headersInit method body = Some r →
  ApiRequest.url r = baseUrl api ∧ ApiRequest.api r = api
  ∧ ApiRequest.method r = method.
Proof.
  unfold constructed. destruct (Headers.new headersInit) as [headers|]; [|done].
  destruct body as [b|]; [|by intros [= <-]].
  destruct (negb (String.eqb method "GET") && negb (String.eqb method "HEAD"));
    [|by intros [= <-]].
  destruct (Headers.delete "content-type" headers ≫= _); [|done].
  by intros [= <-].
Qed.

(** * The claims *)

(** ** C1 *)

(** C1, as stated, fails: composing the base path [/v1] with the relative
    path [tracks] gives [/v1tracks], with no slash between the two, where
    exactly one separating slash would give [/v1/tracks]. *)
Lemma concatUrl_inserts_no_slash :
  composed_path (mkURL "http://api.test" "/v1" "") "tracks" = Some "/v1tracks"
  ∧ composed_path (mkURL "http://api.test" "/v1" "") "tracks"
    ≠ Some (join_with_one_slash "/v1" "tracks").
Proof. split; [reflexivity|]. vm_compute. discriminate. Qed.

(** C1, amended: the composer assigns to the base URL's path the base path
    followed by the relative path, less the leading slash of the relative
    path when the base path ends with a slash and the relative path starts
    with one; the URL keeps the assigned string as its parser writes it,
    and keeps it as it is when the parser leaves the relative path
    unchanged.  When the base path ends with at most one slash and the
    relative path starts with at most one, the assigned string has exactly
    one slash between the two if either side supplies one, and none if
    neither does: none is inserted. *)
Theorem concatUrl_one_slash_when_supplied (l : loc) (path : string)
    (h : gmap loc URL) (u : URL) :
  h !! l = Some u →
  ∃ h' u',
    ApiRequest.concatUrl l path h = Some (l, h')
    ∧ h' !! l = Some u'
    ∧ pathname u'
      = UrlPath.parse
          (pathname u
           +:+ (if JsString.endsWith "/" (pathname u)
                   && JsString.startsWith "/" path
                then JsString.slice1 path
                else path))
    ∧ (UrlPath.parse path = path →
       pathname u'
       = pathname u
         +:+ (if JsString.endsWith "/" (pathname u)
                 && JsString.startsWith "/" path
              then JsString.slice1 path
              else path))
    ∧ (at_most_one_trailing_slash (pathname u) = true →
       at_most_one_leading_slash path = true →
       pathname u'
       = UrlPath.parse
           (if JsString.endsWith "/" (pathname u)
               || JsString.startsWith "/" path
            then join_with_one_slash (pathname u) path
            else pathname u +:+ path)).
Proof.
  intros Hl. eexists _, _. split; [by apply concatUrl_run|].
  split; [apply lookup_insert_eq|]. rewrite pathname_set_pathname.
  split; [done|]. split.
  - intros Hpath. apply parse_concat_path; [apply parse_pathname|done].
  - intros Hbase Hrel. unfold ApiRequest.concat_path.
    by rewrite assigned_with_single_slashes.
Qed.

Lemma concatUrl_one_slash_when_supplied_witness :
  store_with (mkURL "http://api.test" "/v1/" "") !! baseUrl client
  = Some (mkURL "http://api.test" "/v1/" "")
  ∧ ∃ h' u',
      ApiRequest.concatUrl (baseUrl client) "/tracks"
        (store_with (mkURL "http://api.test" "/v1/" ""))
      = Some (baseUrl client, h')
      ∧ h' !! baseUrl client = Some u'
      ∧ pathname u' = "/v1/tracks"
      ∧ pathname u' = UrlPath.parse (join_with_one_slash "/v1/" "/tracks").
Proof.
  split; [reflexivity|].
  destruct (concatUrl_one_slash_when_supplied (baseUrl client) "/tracks"
              (store_with (mkURL "http://api.test" "/v1/" ""))
              (mkURL "http://api.test" "/v1/" "") eq_refl)
    as (h' & u' & Hrun & Hl & _ & Hplain & Hsingle).
  exists h', u'. split; [exact Hrun|]. split; [exact Hl|].
  split; [exact (Hplain eq_refl)|exact (Hsingle eq_refl eq_refl)].
Defined.

(** ** C2 *)

(** C2 fails on the code: when [ok] is false and the parsed body is
    [null], a boolean, a number or a string, or an object whose [error] is
    one of these, the [in] operator throws a [TypeError] before the
    generic [Error] with the status and the body is reached. *)
Theorem from_primitive_body_throws_TypeError (req : ApiRequest.t)
    (res : Response) (body : JSON) :
  ok res = false →
  json res = Some body →
  primitive body = true
  ∨ (∃ props e, body = JObject props
                ∧ Json.lookup "error" props = Some e ∧ primitive e = true) →
  ApiResponse_from req res = Throw TypeError.
Proof.
  intros Hok Hjson Hbody. unfold ApiResponse_from, well_formed_error.
  rewrite Hjson, Hok. cbn.
  destruct Hbody as [Hprim|(props & e & -> & Herr & Hprim)].
  - by destruct body.
  - cbn. rewrite (lookup_has_key _ _ _ Herr), Herr. cbn.
    by destruct e.
Qed.

Lemma from_primitive_body_throws_TypeError_witness :
  ok (mkResponse 500 (Some JNull)) = false
  ∧ ApiResponse_from (plain_request client) (mkResponse 500 (Some JNull))
    = Throw TypeError.
Proof.
  split; [reflexivity|].
  apply (from_primitive_body_throws_TypeError (plain_request client)
           (mkResponse 500 (Some JNull)) JNull);
    [reflexivity|reflexivity|left; reflexivity].
Defined.

(** ** C3 *)

(** C3, as stated, fails: a [POST] whose body declares the content type
    [ text/plain ], with a space on either side, is constructed with the
    [content-type] header [text/plain], which is not the declared content
    type; a body whose declared content type holds a line feed between
    other characters makes the constructor throw, so that no descriptor is
    constructed, and so does a caller header whose name holds a space. *)
Lemma new_content_type_is_not_the_declared :
  (∃ r h',
     ApiRequest.new client "/tracks" [] [] "POST"
       (Some (Body.new " text/plain " "x"))
       (store_with (mkURL "http://api.test" "/" ""))
     = Some (Some r, h')
     ∧ ApiRequest.body r = Some (Body.new " text/plain " "x")
     ∧ Headers.get "content-type" (ApiRequest.headers r)
       = Some (Some "text/plain")
     ∧ Headers.get "content-type" (ApiRequest.headers r)
       ≠ Some (Some (Body.contentType (Body.new " text/plain " "x"))))
  ∧ (∃ h',
       ApiRequest.new client "/tracks" [] [] "POST"
         (Some (Body.new ("text/" +:+ String (ascii_of_N 10) "plain") "x"))
         (store_with (mkURL "http://api.test" "/" ""))
       = Some (None, h'))
  ∧ (∃ h',
       ApiRequest.new client "/tracks" [] [("x y", "1")] "POST"
         (Some (JsonBody.new JNull))
         (store_with (mkURL "http://api.test" "/" ""))
       = Some (None, h')).
Proof.
  split; [|split].
  - eexists _, _. split; [reflexivity|]. split; [reflexivity|].
    split; [reflexivity|]. vm_compute. discriminate.
  - eexists. reflexivity.
  - eexists. reflexivity.
Qed.

(** C3, amended: constructing a request with a body either throws a
    [TypeError] or returns a descriptor.  With a method other than [GET]
    and [HEAD] it throws exactly when the caller's headers are not valid
    or the body's declared content type, its leading and trailing
    whitespace removed, is not a valid header value; the descriptor it
    returns otherwise carries the body, and its [content-type] header is
    the declared content type with its leading and trailing whitespace
    removed, whatever [content-type] the caller supplied (so a [POST] with
    a JSON body has [application/json]).  With the method [GET] or [HEAD]
    the descriptor carries no body. *)
Theorem new_body_and_content_type (api : ApiClient) (path : string)
    (query : URLSearchParams.t) (headersInit : list (string * string))
    (method : string) (b : Body.t) (h : gmap loc URL) (u : URL) :
  h !! baseUrl api = Some u →
  ∃ o h',
    ApiRequest.new api path query headersInit method (Some b) h = Some (o, h')
    ∧ (∀ r, o = Some r → ApiRequest.method r = method)
    ∧ (method ≠ "GET" → method ≠ "HEAD" →
       (o = None
        ↔ Headers.new headersInit = None
          ∨ Headers.valid_value (Headers.normalize (Body.contentType b))
            = false)
       ∧ (∀ r, o = Some r →
            ApiRequest.body r = Some b
            ∧ Headers.get "content-type" (ApiRequest.headers r)
              = Some (Some (Headers.normalize (Body.contentType b)))
            ∧ (∀ json, b = JsonBody.new json →
                 Headers.get "Content-Type" (ApiRequest.headers r)
                 = Some (Some "application/json"))))
    ∧ (method = "GET" ∨ method = "HEAD" →
       (o = None ↔ Headers.new headersInit = None)
       ∧ (∀ r, o = Some r → ApiRequest.body r = None)).
Proof.
  intros Hl. eexists _, _. split; [by apply new_run|].
  split; [intros r Hr; by apply url_constructed in Hr as (_ & _ & ?)|].
  unfold constructed.
  destruct (Headers.new headersInit) as [headers|].
  2:{ split; [intros _ _|intros _]; (split; [|done]); split; auto. }
  destruct (String.eqb_spec method "GET") as [->|Hget].
  { cbn [negb andb]. split; [done|]. intros _. split; [by split|].
    by intros r [= <-]. }
  destruct (String.eqb_spec method "HEAD") as [->|Hhead].
  { cbn [negb andb]. split; [done|]. intros _. split; [by split|].
    by intros r [= <-]. }
  cbn [negb andb]. split; [|by intros [?|?]]. intros _ _.
  destruct (Headers.valid_value (Headers.normalize (Body.contentType b)))
    eqn:Hv.
  - rewrite (Headers_force_content_type _ _ Hv). split.
    + split; [done|]. by intros [?|?].
    + intros r [= <-]. cbn [ApiRequest.body ApiRequest.headers].
      split; [done|]. split; [apply Headers_get_forced|].
      intros json ->. apply (Headers_get_forced "application/json").
  - rewrite (Headers_force_content_type_invalid _ _ Hv). split; [|done].
    split; [by right|done].
Qed.

Lemma new_body_and_content_type_witness :
  store_with (mkURL "http://api.test" "/" "")
    !! baseUrl client
  = Some (mkURL "http://api.test" "/" "")
  ∧ ∃ r h',
      ApiRequest.new client "/tracks" []
        [("Content-Type", "text/plain")] "POST"
        (Some (JsonBody.new (JObject [("title", JString "Song")])))
        (store_with (mkURL "http://api.test" "/" ""))
      = Some (Some r, h')
      ∧ ApiRequest.body r
        = Some (JsonBody.new (JObject [("title", JString "Song")]))
      ∧ Headers.get "content-type" (ApiRequest.headers r)
        = Some (Some "application/json").
Proof.
  split; [reflexivity|].
  destruct (new_body_and_content_type client "/tracks" []
              [("Content-Type", "text/plain")] "POST"
              (JsonBody.new (JObject [("title", JString "Song")]))
              (store_with (mkURL "http://api.test" "/" ""))
              (mkURL "http://api.test" "/" "") eq_refl)
    as (o & h' & Hrun & _ & Hbody & _).
  destruct (Hbody ltac:(discriminate) ltac:(discriminate)) as (Hthrow & Hr).
  destruct o as [r|].
  - exists r, h'. split; [exact Hrun|].
    destruct (Hr r eq_refl) as (Hb & Hct & _).
    split; [exact Hb | exact Hct].
  - exfalso. destruct (proj1 Hthrow eq_refl) as [Hn|Hn]; discriminate Hn.
Defined.

(** ** C4 *)

(** C4: when the response's [ok] flag is true and its body parses as
    JSON, the classifier throws nothing and returns the envelope made of
    the request, the response and the parsed body, unchanged. *)
Theorem from_ok_returns_parsed_body (req : ApiRequest.t) (res : Response)
    (body : JSON) :
  ok res = true →
  json res = Some body →
  ApiResponse_from req res = Return (ApiResponse.new req res body).
Proof.
  intros Hok Hjson. unfold ApiResponse_from. by rewrite Hjson, Hok.
Qed.

Lemma from_ok_returns_parsed_body_witness :
  ok (mkResponse 200 (Some (JObject [("id", JString "t1");
                                     ("title", JString "Song")]))) = true
  ∧ ApiResponse_from (plain_request client)
      (mkResponse 200 (Some (JObject [("id", JString "t1");
                                      ("title", JString "Song")])))
    = Return (ApiResponse.new (plain_request client)
                (mkResponse 200 (Some (JObject [("id", JString "t1");
                                                ("title", JString "Song")])))
                (JObject [("id", JString "t1"); ("title", JString "Song")])).
Proof.
  split; [reflexivity|].
  apply (from_ok_returns_parsed_body (plain_request client)
           (mkResponse 200 (Some (JObject [("id", JString "t1");
                                           ("title", JString "Song")])))
           (JObject [("id", JString "t1"); ("title", JString "Song")]));
    reflexivity.
Defined.

(** ** C5 *)

(** C5: when [ok] is false and the body is an object whose [error] is an
    object whose [message] is the string [m], the classifier throws an
    [ApiError] carrying the envelope, and its message is [m]. *)
Theorem from_recognized_error_message (req : ApiRequest.t) (res : Response)
    (props eprops : list (string * JSON)) (m : string) :
  ok res = false →
  json res = Some (JObject props) →
  Json.lookup "error" props = Some (JObject eprops) →
  Json.lookup "message" eprops = Some (JString m) →
  ApiResponse_from req res
  = Throw (ApiError (ApiResponse.new req res (JObject props)) m).
Proof.
  intros Hok Hjson Herr Hmsg. unfold ApiResponse_from, well_formed_error.
  rewrite Hjson, Hok. cbn.
  rewrite (lookup_has_key _ _ _ Herr), Herr. cbn.
  rewrite (lookup_has_key _ _ _ Hmsg). cbn.
  unfold new_ApiError. cbn. by rewrite Hmsg.
Qed.

Lemma from_recognized_error_message_witness :
  ok (mkResponse 404
        (Some (JObject [("error", JObject [("message", JString "not found")])])))
  = false
  ∧ ApiResponse_from (plain_request client)
      (mkResponse 404
         (Some (JObject [("error", JObject [("message", JString "not found")])])))
    = Throw (ApiError
               (ApiResponse.new (plain_request client)
                  (mkResponse 404
                     (Some (JObject [("error",
                                      JObject [("message", JString "not found")])])))
                  (JObject [("error", JObject [("message", JString "not found")])]))
               "not found").
Proof.
  split; [reflexivity|].
  apply (from_recognized_error_message (plain_request client)
           (mkResponse 404
              (Some (JObject [("error", JObject [("message", JString "not found")])])))
           [("error", JObject [("message", JString "not found")])]
           [("message", JString "not found")] "not found");
    reflexivity.
Defined.

(** ** C6 *)

(** C6, as stated, fails: the track listing called without [limit] and
    [page] but with a [sort] has the query string [sort=title%3Aasc], not
    an empty one. *)
Lemma listTracks_sort_alone_in_query :
  search <$> url_after
               (listTracks (server (mkResponse 200 (Some (JArray []))))
                  client None None (Some (Sort.title, Sort.asc)))
               client (store_with (mkURL "http://api.test" "/" ""))
  = Some "?sort=title%3Aasc"
  ∧ search <$> url_after
                 (listTracks (server (mkResponse 200 (Some (JArray []))))
                    client None None (Some (Sort.title, Sort.asc)))
                 client (store_with (mkURL "http://api.test" "/" ""))
    ≠ Some EmptyString.
Proof. split; [reflexivity|]. vm_compute. discriminate. Qed.

(** C6, amended: the query string of a list operation holds exactly the
    parameters that were supplied, in the order [limit], [page], [sort]
    ([sort] being a parameter of the track listing alone).  So with
    [limit] and [page] omitted no [limit] or [page] key is serialized, and
    the query string is empty unless the track listing was given a
    [sort]; a [limit] or [page] that is supplied is serialized, whatever
    its value. *)
Theorem list_query_holds_what_is_supplied (network : transport)
    (this : ApiClient) (c : operation) (limit page : option Z)
    (sort : option Sort.t) (h : gmap loc URL) (u : URL) :
  listing c = Some (limit, page, sort) →
  h !! baseUrl this = Some u →
  ∃ o h' u',
    perform network this c h = Some (o, h')
    ∧ h' !! baseUrl this = Some u'
    ∧ search u' = search_of (supplied limit page sort)
    ∧ (limit = None → page = None → sort = None → search u' = EmptyString)
    ∧ (URLSearchParams.has "limit" (supplied limit page sort) = true
       ↔ is_Some limit)
    ∧ (URLSearchParams.has "page" (supplied limit page sort) = true
       ↔ is_Some page).
Proof.
  intros Hc Hl.
  assert (query_of c = supplied limit page sort) as Hq.
  { destruct c; try done; cbn in Hc; by injection Hc as <- <- <-. }
  eexists _, _, _. split; [by apply perform_run|].
  split; [apply lookup_insert_eq|].
  rewrite search_composed, Hq.
  split; [done|]. split; [by intros -> -> ->|].
  split.
  - destruct limit, page, sort; cbn; split; (done || by intros []).
  - destruct limit, page, sort; cbn; split; (done || by intros []).
Qed.

Lemma list_query_holds_what_is_supplied_witness :
  listing (ListTracks (Some 0) None None) = Some (Some 0, None, None)
  ∧ store_with (mkURL "http://api.test" "/" "") !! baseUrl client
    = Some (mkURL "http://api.test" "/" "")
  ∧ ∃ o h' u',
      perform (server (mkResponse 200 (Some (JArray [])))) client
        (ListTracks (Some 0) None None)
        (store_with (mkURL "http://api.test" "/" ""))
      = Some (o, h')
      ∧ h' !! baseUrl client = Some u'
      ∧ search u' = "?limit=0".
Proof.
  split; [reflexivity|]. split; [reflexivity|].
  destruct (list_query_holds_what_is_supplied
              (server (mkResponse 200 (Some (JArray [])))) client
              (ListTracks (Some 0) None None) (Some 0) None None
              (store_with (mkURL "http://api.test" "/" ""))
              (mkURL "http://api.test" "/" "") eq_refl eq_refl)
    as (o & h' & u' & Hrun & Hu & Hs & _).
  exists o, h', u'. split; [exact Hrun|]. split; [exact Hu|exact Hs].
Defined.

(** ** C7 *)

(** C7: the bulk fetch of artists serializes its identifiers as one [id]
    parameter each, in the order of the list, joined by [&] (never by
    commas: a comma inside an identifier is percent-encoded); the
    identifiers [a], [b], [c] give [id=a&id=b&id=c], which the [search]
    getter returns after a [?]. *)
Theorem getArtists_repeats_id (network : transport) (this : ApiClient)
    (ids : list string) (h : gmap loc URL) (u : URL) :
  h !! baseUrl this = Some u →
  ∃ o h' u',
    getArtists network this ids h = Some (o, h')
    ∧ h' !! baseUrl this = Some u'
    ∧ search u'
      = match ids with
        | [] => EmptyString
        | _ => "?" +:+ JsString.join "&"
                         (map (λ id, "id=" +:+ URLSearchParams.encode id) ids)
        end
    ∧ (ids = ["a"; "b"; "c"] → search u' = "?id=a&id=b&id=c").
Proof.
  intros Hl. eexists _, _, _.
  split; [by apply (perform_run network this (GetArtists ids))|].
  split; [apply lookup_insert_eq|].
  rewrite search_composed. cbn [query_of path_of].
  split; [|by intros ->].
  destruct ids as [|id ids]; [done|].
  unfold search_of, URLSearchParams.toString.
  cbn [map]. by rewrite map_map.
Qed.

Lemma getArtists_repeats_id_witness :
  store_with (mkURL "http://api.test" "/" "") !! baseUrl client
  = Some (mkURL "http://api.test" "/" "")
  ∧ ∃ o h' u',
      getArtists (server (mkResponse 200 (Some (JArray [])))) client
        ["a"; "b"; "c"] (store_with (mkURL "http://api.test" "/" ""))
      = Some (o, h')
      ∧ h' !! baseUrl client = Some u'
      ∧ search u' = "?id=a&id=b&id=c".
Proof.
  split; [reflexivity|].
  destruct (getArtists_repeats_id
              (server (mkResponse 200 (Some (JArray [])))) client
              ["a"; "b"; "c"] (store_with (mkURL "http://api.test" "/" ""))
              (mkURL "http://api.test" "/" "") eq_refl)
    as (o & h' & u' & Hrun & Hu & _ & Hs).
  exists o, h', u'. split; [exact Hrun|]. split; [exact Hu|exact (Hs eq_refl)].
Defined.

(** ** C8 *)

(** C8: the composer updates the pathname of the URL object it is given,
    in the store and at its own location, and returns that location: no
    object is created, no other object is touched, and the object keeps
    its origin and its query string.  The new pathname is the parser's
    reading of the old pathname followed by the relative path, less the
    leading slash of the relative path when the old pathname ends with a
    slash and the relative path starts with one.  The constructor composes
    on the base URL object of the client, which is the URL of the
    descriptor it returns, and leaves in it, whether it returns or throws,
    that pathname and, as its query string, the serialized query
    parameters alone, whatever query it had before. *)
Theorem concatUrl_mutates_in_place (api : ApiClient) (path : string)
    (query : URLSearchParams.t) (headersInit : list (string * string))
    (method : string) (body : option Body.t) (h : gmap loc URL) (u : URL) :
  h !! baseUrl api = Some u →
  (∃ h1 u1,
     ApiRequest.concatUrl (baseUrl api) path h = Some (baseUrl api, h1)
     ∧ dom h1 = dom h
     ∧ (∀ l, l ≠ baseUrl api → h1 !! l = h !! l)
     ∧ h1 !! baseUrl api = Some u1
     ∧ pathname u1
       = UrlPath.parse
           (pathname u
            +:+ (if JsString.endsWith "/" (pathname u)
                    && JsString.startsWith "/" path
                 then JsString.slice1 path
                 else path))
     ∧ origin u1 = origin u
     ∧ search u1 = search u)
  ∧ ∃ o h' u',
      ApiRequest.new api path query headersInit method body h = Some (o, h')
      ∧ (∀ r, o = Some r → ApiRequest.url r = baseUrl api)
      ∧ dom h' = dom h
      ∧ (∀ l, l ≠ baseUrl api → h' !! l = h !! l)
      ∧ h' !! baseUrl api = Some u'
      ∧ pathname u'
        = UrlPath.parse
            (pathname u
             +:+ (if JsString.endsWith "/" (pathname u)
                     && JsString.startsWith "/" path
                  then JsString.slice1 path
                  else path))
      ∧ origin u' = origin u
      ∧ search u' = search_of query.
Proof.
  intros Hl.
  assert (Hdom : ∀ v : URL, dom (<[baseUrl api := v]> h) = dom h).
  { intros v. rewrite dom_insert_L. apply elem_of_dom_2 in Hl.
    apply subseteq_union_1_L, singleton_subseteq_l, Hl. }
  split.
  - eexists _, _. split; [by apply concatUrl_run|].
    split; [apply Hdom|].
    split; [intros l Hne; by rewrite lookup_insert_ne|].
    split; [apply lookup_insert_eq|].
    split; [apply pathname_set_pathname|]. done.
  - eexists _, _, _. split; [by apply new_run|].
    split; [intros r Hr; by apply url_constructed in Hr as (? & _)|].
    split; [apply Hdom|].
    split; [intros l Hne; by rewrite lookup_insert_ne|].
    split; [apply lookup_insert_eq|].
    split; [apply pathname_composed|].
    split; [apply origin_composed|apply search_composed].
Qed.

Lemma concatUrl_mutates_in_place_witness :
  store_with (mkURL "http://api.test" "/v1/" "?stale=1") !! baseUrl client
  = Some (mkURL "http://api.test" "/v1/" "?stale=1")
  ∧ (∃ h1 u1,
       ApiRequest.concatUrl (baseUrl client) "/tracks"
         (store_with (mkURL "http://api.test" "/v1/" "?stale=1"))
       = Some (baseUrl client, h1)
       ∧ h1 !! baseUrl client = Some u1
       ∧ pathname u1 = "/v1/tracks"
       ∧ search u1 = "?stale=1")
  ∧ ∃ r h' u',
      ApiRequest.new client "/tracks" [("limit", "5")] [] "GET" None
        (store_with (mkURL "http://api.test" "/v1/" "?stale=1"))
      = Some (Some r, h')
      ∧ ApiRequest.url r = baseUrl client
      ∧ dom h' = dom (store_with (mkURL "http://api.test" "/v1/" "?stale=1"))
      ∧ h' !! baseUrl client = Some u'
      ∧ pathname u' = "/v1/tracks"
      ∧ search u' = "?limit=5".
Proof.
  split; [reflexivity|].
  destruct (concatUrl_mutates_in_place client "/tracks" [("limit", "5")] []
              "GET" None
              (store_with (mkURL "http://api.test" "/v1/" "?stale=1"))
              (mkURL "http://api.test" "/v1/" "?stale=1") eq_refl)
    as ((h1 & u1 & Hrun1 & _ & _ & Hl1 & Hp1 & _ & Hs1)
        & (o & h' & u' & Hrun & Hurl & Hdom & _ & Hl' & Hp' & _ & Hs')).
  split.
  - exists h1, u1. split; [exact Hrun1|]. split; [exact Hl1|].
    split; [exact Hp1 | exact Hs1].
  - destruct o as [r|]; [|discriminate Hrun].
    exists r, h', u'. split; [exact Hrun|]. split; [exact (Hurl r eq_refl)|].
    split; [exact Hdom|]. split; [exact Hl'|].
    split; [exact Hp' | exact Hs'].
Defined.

(** ** C9 *)

(** C9, as stated, fails: the client returns the body of the response as
    the page, and a server that sends two resources with [limit] 1, a
    [previous] on page 1 and no [next] before the last page has them
    returned as they are. *)
Lemma listArtists_returns_page_unchecked :
  ∃ p,
    page_returned
      (listArtists (server (mkResponse 200 (Some unchecked_page))) client
         None None)
      (store_with (mkURL "http://api.test" "/" ""))
    = Some p
    ∧ ¬ Page.invariant p.
Proof.
  eexists. split; [reflexivity|].
  intros [Hlen _]. vm_compute in Hlen. by apply Hlen.
Qed.

(** C9, amended: a list operation whose response has a true [ok] flag
    returns the parsed body of that response as its page, as it came from
    the server; the bounds on [resources], [previous] and [next] are the
    server's to keep, the client neither computes nor checks them. *)
Theorem list_returns_server_page (network : transport) (this : ApiClient)
    (c : operation) (params : option Z * option Z * option Sort.t)
    (h : gmap loc URL) (u : URL) (res : Response) (b : JSON) :
  listing c = Some params →
  h !! baseUrl this = Some u →
  network (composed u (path_of c) (query_of c)) "GET" [] None = Some res →
  ok res = true →
  json res = Some b →
  ∃ env h',
    perform network this c h = Some (Return env, h')
    ∧ ApiResponse.body env = b
    ∧ ApiResponse.res env = res
    ∧ page_returned (perform network this c) h = Page.of_json b.
Proof.
  intros _ Hl Hnet Hok Hjson.
  pose proof (perform_run network this c h u Hl) as Hrun.
  unfold response_to in Hrun. cbn in Hrun. rewrite Hnet in Hrun.
  rewrite (from_ok_response _ _ _ Hok Hjson) in Hrun.
  eexists _, _. split; [exact Hrun|]. split; [done|]. split; [done|].
  unfold page_returned. by rewrite Hrun.
Qed.

Lemma list_returns_server_page_witness :
  ok (mkResponse 200 (Some unchecked_page)) = true
  ∧ ∃ env h',
      perform (server (mkResponse 200 (Some unchecked_page))) client
        (ListArtists None None) (store_with (mkURL "http://api.test" "/" ""))
      = Some (Return env, h')
      ∧ ApiResponse.body env = unchecked_page.
Proof.
  split; [reflexivity|].
  destruct (list_returns_server_page
              (server (mkResponse 200 (Some unchecked_page))) client
              (ListArtists None None) (None, None, None)
              (store_with (mkURL "http://api.test" "/" ""))
              (mkURL "http://api.test" "/" "")
              (mkResponse 200 (Some unchecked_page)) unchecked_page
              eq_refl eq_refl eq_refl eq_refl eq_refl)
    as (env & h' & Hrun & Hbody & _).
  exists env, h'. split; [exact Hrun|exact Hbody].
Defined.

(** ** C10 *)

(** C10, as stated, fails: the path of a request is not always appended
    to the client's base path.  On a client whose base path is [/], the
    request of [getArtist("..")], for the path [/artists/..], leaves the
    base path [/], and a listing of tracks made next asks for [/tracks],
    which holds nothing of the first path. *)
Lemma dot_segments_are_not_appended :
  ∃ o1 h1 o2 h2 u1 u2,
    perform echo client (GetArtist "..")
      (store_with (mkURL "http://api.test" "/" ""))
    = Some (o1, h1)
    ∧ h1 !! baseUrl client = Some u1
    ∧ pathname u1 = "/"
    ∧ perform echo client (ListTracks None None None) h1 = Some (o2, h2)
    ∧ h2 !! baseUrl client = Some u2
    ∧ pathname u2 = "/tracks"
    ∧ pathname u2
      ≠ ApiRequest.concat_path
          (ApiRequest.concat_path "/" (path_of (GetArtist "..")))
          (path_of (ListTracks None None None)).
Proof.
  eexists _, _, _, _, _, _.
  split; [reflexivity|]. split; [reflexivity|]. split; [reflexivity|].
  split; [reflexivity|]. split; [reflexivity|]. split; [reflexivity|].
  vm_compute. discriminate.
Qed.

(** C10, amended: every request of a client is composed on the one URL
    object the client holds, whether its construction returns or throws,
    and what is composed stays in that object: after a request for [p] the
    base path is the parser's reading of the base path followed by [p],
    and a second request of the same client for [q] is composed on that
    path.  When the parser leaves [p] and [q] unchanged, the second
    request has the path made of the base path, then [p], then [q].  So
    it is at the public methods: after a listing of artists, a listing of
    tracks asks for [/artists/tracks]. *)
Theorem requests_accumulate_paths (network : transport) (this : ApiClient)
    (p q : string) (query1 query2 : URLSearchParams.t)
    (headers1 headers2 : list (string * string)) (method1 method2 : string)
    (body1 body2 : option Body.t) (c1 c2 : operation)
    (h : gmap loc URL) (u : URL) :
  h !! baseUrl this = Some u →
  (∃ o1 h1 o2 h2 u1 u2,
     ApiRequest.new this p query1 headers1 method1 body1 h = Some (o1, h1)
     ∧ h1 !! baseUrl this = Some u1
     ∧ pathname u1 = UrlPath.parse (ApiRequest.concat_path (pathname u) p)
     ∧ ApiRequest.new this q query2 headers2 method2 body2 h1 = Some (o2, h2)
     ∧ (∀ r1, o1 = Some r1 → ApiRequest.url r1 = baseUrl this)
     ∧ (∀ r2, o2 = Some r2 → ApiRequest.url r2 = baseUrl this)
     ∧ h2 !! baseUrl this = Some u2
     ∧ pathname u2
       = UrlPath.parse
           (ApiRequest.concat_path
              (UrlPath.parse (ApiRequest.concat_path (pathname u) p)) q)
     ∧ (UrlPath.parse p = p → UrlPath.parse q = q →
        pathname u1 = ApiRequest.concat_path (pathname u) p
        ∧ pathname u2
          = ApiRequest.concat_path (ApiRequest.concat_path (pathname u) p) q))
  ∧ (∃ o1 h1 o2 h2 u1 u2,
       perform network this c1 h = Some (o1, h1)
       ∧ h1 !! baseUrl this = Some u1
       ∧ pathname u1
         = UrlPath.parse (ApiRequest.concat_path (pathname u) (path_of c1))
       ∧ perform network this c2 h1 = Some (o2, h2)
       ∧ h2 !! baseUrl this = Some u2
       ∧ pathname u2
         = UrlPath.parse
             (ApiRequest.concat_path
                (UrlPath.parse
                   (ApiRequest.concat_path (pathname u) (path_of c1)))
                (path_of c2))
       ∧ (UrlPath.parse (path_of c1) = path_of c1 →
          UrlPath.parse (path_of c2) = path_of c2 →
          pathname u1 = ApiRequest.concat_path (pathname u) (path_of c1)
          ∧ pathname u2
            = ApiRequest.concat_path
                (ApiRequest.concat_path (pathname u) (path_of c1))
                (path_of c2))).
Proof.
  intros Hl.
  assert (Hplain : ∀ p q query1 query2,
            UrlPath.parse p = p → UrlPath.parse q = q →
            pathname (composed u p query1)
            = ApiRequest.concat_path (pathname u) p
            ∧ pathname (composed (composed u p query1) q query2)
              = ApiRequest.concat_path
                  (ApiRequest.concat_path (pathname u) p) q).
  { intros p' q' q1 q2 Hp Hq.
    assert (H1 : pathname (composed u p' q1)
                 = ApiRequest.concat_path (pathname u) p').
    { rewrite pathname_composed.
      apply parse_concat_path; [apply parse_pathname|done]. }
    split; [done|]. rewrite pathname_composed, H1.
    apply parse_concat_path; [|done].
    rewrite <- H1. apply parse_pathname. }
  split.
  - eexists _, _, _, _, _, _.
    split; [by apply new_run|].
    split; [apply lookup_insert_eq|].
    split; [apply pathname_composed|].
    split; [apply new_run, lookup_insert_eq|].
    split; [intros r Hr; by apply url_constructed in Hr as (? & _)|].
    split; [intros r Hr; by apply url_constructed in Hr as (? & _)|].
    split; [apply lookup_insert_eq|].
    split; [by rewrite !pathname_composed|].
    apply Hplain.
  - eexists _, _, _, _, _, _.
    split; [by apply perform_run|].
    split; [apply lookup_insert_eq|].
    split; [apply pathname_composed|].
    split; [apply perform_run, lookup_insert_eq|].
    split; [apply lookup_insert_eq|].
    split; [by rewrite !pathname_composed|].
    apply Hplain.
Qed.

Lemma requests_accumulate_paths_witness :
  store_with (mkURL "http://api.test" "/" "") !! baseUrl client
  = Some (mkURL "http://api.test" "/" "")
  ∧ ∃ o1 h1 o2 h2 u1 u2,
      perform echo client (ListArtists None None)
        (store_with (mkURL "http://api.test" "/" ""))
      = Some (o1, h1)
      ∧ h1 !! baseUrl client = Some u1
      ∧ pathname u1 = "/artists"
      ∧ perform echo client (ListTracks None None None) h1 = Some (o2, h2)
      ∧ h2 !! baseUrl client = Some u2
      ∧ pathname u2 = "/artists/tracks".
Proof.
  split; [reflexivity|].
  destruct (requests_accumulate_paths echo client
              "/artists" "/tracks" [] [] [] [] "GET" "GET" None None
              (ListArtists None None) (ListTracks None None None)
              (store_with (mkURL "http://api.test" "/" ""))
              (mkURL "http://api.test" "/" "") eq_refl)
    as (_ & o1 & h1 & o2 & h2 & u1 & u2
        & Hrun1 & Hl1 & _ & Hrun2 & Hl2 & _ & Hplain).
  destruct (Hplain eq_refl eq_refl) as (Hp1 & Hp2).
  exists o1, h1, o2, h2, u1, u2.
  split; [exact Hrun1|]. split; [exact Hl1|]. split; [exact Hp1|].
  split; [exact Hrun2|]. split; [exact Hl2|]. exact Hp2.
Defined.

(** * Further properties of the code *)

(** ** Array indices are not words *)

Lemma pretty_N_go_suffix x s : ∃ t, pretty_N_go x s = t +:+ s.
Proof.
  revert s. induction (N.lt_wf_0 x) as [x _ IH]; intros s.
  destruct (decide (x = 0)%N) as [->|Hx].
  - exists EmptyString. by rewrite pretty_N_go_0.
  - rewrite pretty_N_go_step by lia.
    destruct (IH (x `div` 10)%N) with (s := String (pretty_N_char (x `mod` 10)) s)
      as [t Ht]; [apply N.div_lt; lia|].
    exists (t +:+ String (pretty_N_char (x `mod` 10)) EmptyString).
    by rewrite Ht, append_assoc.
Qed.

Lemma ends_with_digit_char k t :
  (k < 10)%N →
  ends_with_digit (t +:+ String (pretty_N_char k) EmptyString) = true.
Proof.
  intros Hk. apply existsb_exists. exists (pretty_N_char k).
  split; [|apply endsWith_append].
  assert (k = 0 ∨ k = 1 ∨ k = 2 ∨ k = 3 ∨ k = 4 ∨ k = 5 ∨ k = 6 ∨ k = 7
          ∨ k = 8 ∨ k = 9)%N as Hcases by lia.
  repeat (destruct Hcases as [->|Hcases]; [cbn; tauto|]).
  subst k. cbn. tauto.
Qed.

Lemma pretty_N_ends_with_digit (x : N) : ends_with_digit (pretty x) = true.
Proof.
  unfold pretty, pretty_N. destruct (decide (x = 0)%N) as [->|Hx]; [done|].
  rewrite pretty_N_go_step by lia.
  destruct (pretty_N_go_suffix (x `div` 10)
              (String (pretty_N_char (x `mod` 10)) EmptyString)) as [t ->].
  apply ends_with_digit_char, N.mod_lt. lia.
Qed.

Lemma index_ends_with_digit (i : nat) :
  ends_with_digit (pretty (Z.of_nat i)) = true.
Proof.
  destruct i as [|i]; [done|]. cbn [Z.of_nat].
  apply (pretty_N_ends_with_digit (N.pos _)).
Qed.

Lemma word_not_index w (i : nat) :
  ends_with_digit w = false → w ≠ pretty (Z.of_nat i).
Proof. intros Hw ->. by rewrite index_ends_with_digit in Hw. Qed.

(** An array has no property of a name that is neither [length] nor an
    index. *)
Lemma array_has_no_word key items :
  ends_with_digit key = false →
  String.eqb key "length" = false →
  Js.has_property key (Some (JArray items)) = Some false.
Proof.
  intros Hw Hl. cbn. rewrite Hl. cbn. f_equal.
  apply not_true_is_false. intros (i & _ & Hi)%existsb_exists.
  apply String.eqb_eq in Hi. by apply word_not_index in Hi.
Qed.

(** ** The classifier, case by case *)

Lemma from_unfold req res :
  ApiResponse_from req res
  = match json res with
    | None => Throw SyntaxError
    | Some body =>
        if ok res then Return (ApiResponse.new req res body)
        else match well_formed_error body with
             | Throw e => Throw e
             | Return true =>
                 match new_ApiError (ApiResponse.new req res body) with
                 | Return e => Throw e
                 | Throw e => Throw e
                 end
             | Return false => Throw (Error (unknown_error_message res body))
             end
    end.
Proof.
  unfold ApiResponse_from. destruct (json res) as [body|]; [|done]. cbn.
  destruct (ok res); [done|]. cbn.
  destruct (well_formed_error body) as [[]|]; [|done..]. cbn.
  by destruct (new_ApiError _).
Qed.

Lemma or_TypeError_Throw {A} (o : option A) e :
  or_TypeError o = Throw e → e = TypeError.
Proof. destruct o; [done|]. cbn. congruence. Qed.

Lemma well_formed_error_Throw body e :
  well_formed_error body = Throw e → e = TypeError.
Proof.
  unfold well_formed_error. destruct body as [| | | |items|props]; cbn;
    try congruence.
  - destruct (existsb _ _); cbn; congruence.
  - destruct (Json.has_key "error" props); cbn; [|congruence].
    destruct (Json.lookup "error" props) as [[]|]; cbn; congruence.
Qed.

Lemma has_key_lookup key props :
  Json.has_key key props = true → ∃ v, Json.lookup key props = Some v.
Proof.
  unfold Json.has_key. induction props as [|[k w] props IH]; [done|].
  cbn [Json.lookup existsb fst]. destruct (String.eqb k key); [by eexists|].
  done.
Qed.

(** The bodies the inner condition accepts. *)
Lemma well_formed_error_true body :
  well_formed_error body = Return true →
  ∃ props eprops m,
    body = JObject props
    ∧ Json.lookup "error" props = Some (JObject eprops)
    ∧ Json.lookup "message" eprops = Some m.
Proof.
  unfold well_formed_error. destruct body as [| | | |items|props]; try done.
  - by rewrite array_has_no_word.
  - cbn. destruct (Json.has_key "error" props) eqn:Hk; [|done]. cbn.
    apply has_key_lookup in Hk as [error Herr]. rewrite Herr.
    destruct error as [| | | |items|eprops]; try done.
    + by rewrite array_has_no_word.
    + cbn. intros [= Hk']. apply has_key_lookup in Hk' as [m Hm].
      by eexists _, _, _.
Qed.

Lemma new_ApiError_shape req res props eprops m :
  Json.lookup "error" props = Some (JObject eprops) →
  Json.lookup "message" eprops = Some m →
  new_ApiError (ApiResponse.new req res (JObject props))
  = match Js.ToString m with
    | Some text => Return (ApiError (ApiResponse.new req res (JObject props)) text)
    | None => Throw TypeError
    end.
Proof.
  intros Herr Hmsg. unfold new_ApiError. cbn. rewrite Herr. cbn.
  rewrite Hmsg. cbn. by destruct (Js.ToString m).
Qed.

(** X1: the classifier returns an envelope exactly when the response's
    [ok] flag is true and its body parses as JSON; the envelope then holds
    the request, the response and the parsed body.  Every other response
    makes it throw. *)
Theorem from_returns_iff (req : ApiRequest.t) (res : Response)
    (env : ApiResponse.t) :
  ApiResponse_from req res = Return env
  ↔ ok res = true
    ∧ json res = Some (ApiResponse.body env)
    ∧ ApiResponse.req env = req
    ∧ ApiResponse.res env = res.
Proof.
  rewrite from_unfold. split.
  - destruct (json res) as [body|]; [|done].
    destruct (ok res).
    + by intros [= <-].
    + destruct (well_formed_error body) as [[]|]; [|done..].
      by destruct (new_ApiError _).
  - intros (-> & -> & <- & <-). by destruct env.
Qed.

(** X2: an [ApiError] is thrown only for a response whose [ok] flag is
    false and whose body is an object with an [error] object that has a
    [message]; the error carries the request, the response and that body,
    and its message is the text of the [message] property. *)
Theorem ApiError_thrown_only_for_error_shape (req : ApiRequest.t)
    (res : Response) (env : ApiResponse.t) (msg : string) :
  ApiResponse_from req res = Throw (ApiError env msg) →
  ok res = false
  ∧ json res = Some (ApiResponse.body env)
  ∧ ApiResponse.req env = req
  ∧ ApiResponse.res env = res
  ∧ ∃ props eprops m,
      ApiResponse.body env = JObject props
      ∧ Json.lookup "error" props = Some (JObject eprops)
      ∧ Json.lookup "message" eprops = Some m
      ∧ Js.ToString m = Some msg.
Proof.
  rewrite from_unfold.
  destruct (json res) as [body|]; [|done].
  destruct (ok res); [done|].
  destruct (well_formed_error body) as [[]|e'] eqn:Hwf; [| |].
  - apply well_formed_error_true in Hwf as (props & eprops & m & -> & Herr & Hmsg).
    rewrite (new_ApiError_shape _ _ _ _ _ Herr Hmsg).
    destruct (Js.ToString m) as [text|] eqn:Htext; [|done].
    intros [= <- <-]. cbn. do 4 (split; [done|]).
    by eexists _, _, _.
  - done.
  - apply well_formed_error_Throw in Hwf as ->. done.
Qed.

Lemma ApiError_thrown_only_for_error_shape_witness :
  ApiResponse_from (plain_request client)
    (mkResponse 404
       (Some (JObject [("error", JObject [("message", JNumber 404)])])))
  = Throw (ApiError
             (ApiResponse.new (plain_request client)
                (mkResponse 404
                   (Some (JObject [("error", JObject [("message", JNumber 404)])])))
                (JObject [("error", JObject [("message", JNumber 404)])]))
             "404")
  ∧ ok (mkResponse 404
          (Some (JObject [("error", JObject [("message", JNumber 404)])])))
    = false.
Proof.
  split; [reflexivity|].
  apply (ApiError_thrown_only_for_error_shape (plain_request client)
           (mkResponse 404
              (Some (JObject [("error", JObject [("message", JNumber 404)])])))
           (ApiResponse.new (plain_request client)
              (mkResponse 404
                 (Some (JObject [("error", JObject [("message", JNumber 404)])])))
              (JObject [("error", JObject [("message", JNumber 404)])]))
           "404").
  reflexivity.
Defined.

(** X3: when [ok] is false and the body is an array, or an object without
    an [error] property, or one whose [error] is an array or an object
    without a [message], the classifier throws the plain [Error] whose
    message gives the status and the body as JSON text. *)
Theorem from_unrecognized_shapes (req : ApiRequest.t) (res : Response)
    (body : JSON) :
  ok res = false →
  json res = Some body →
  (∃ items, body = JArray items)
  ∨ (∃ props,
       body = JObject props
       ∧ (Json.lookup "error" props = None
          ∨ (∃ items, Json.lookup "error" props = Some (JArray items))
          ∨ (∃ eprops, Json.lookup "error" props = Some (JObject eprops)
                       ∧ Json.lookup "message" eprops = None))) →
  ApiResponse_from req res
  = Throw (Error ("Unknown error response received. status="
                  +:+ Number_toString (status res)
                  +:+ " body=" +:+ Json.stringify body)).
Proof.
  intros Hok Hjson Hshape. rewrite from_unfold, Hjson, Hok.
  replace (well_formed_error body) with (Return (A := bool) false); [done|].
  symmetry. unfold well_formed_error.
  destruct Hshape as [[items ->]|(props & -> & [Herr|[[items Herr]|(eprops & Herr & Hmsg)]])].
  - by rewrite array_has_no_word.
  - cbn. by rewrite (lookup_None_has_key _ _ Herr).
  - cbn [Js.has_property Js.typeof Js.get].
    rewrite (lookup_has_key _ _ _ Herr), Herr. cbn [or_TypeError obind negb].
    cbn [String.eqb Ascii.eqb Bool.eqb negb]. cbn [obind].
    by rewrite array_has_no_word.
  - cbn. rewrite (lookup_has_key _ _ _ Herr), Herr. cbn.
    by rewrite (lookup_None_has_key _ _ Hmsg).
Qed.

Lemma from_unrecognized_shapes_witness :
  ok (mkResponse 502 (Some (JObject [("foo", JString "bar")]))) = false
  ∧ ApiResponse_from (plain_request client)
      (mkResponse 502 (Some (JObject [("foo", JString "bar")])))
    = Throw (Error ("Unknown error response received. status=502 body="
                    +:+ Json.stringify (JObject [("foo", JString "bar")]))).
Proof.
  split; [reflexivity|].
  apply (from_unrecognized_shapes (plain_request client)
           (mkResponse 502 (Some (JObject [("foo", JString "bar")])))
           (JObject [("foo", JString "bar")])); [reflexivity|reflexivity|].
  right. exists [("foo", JString "bar")]. split; [reflexivity|].
  left. reflexivity.
Defined.

(** X4: the classifier throws a [SyntaxError] exactly when the body does
    not parse as JSON, whatever the status: an error response with a body
    that is not JSON is reported neither as an [ApiError] nor as the plain
    unrecognized-response [Error]. *)
Theorem from_SyntaxError_iff_unparsed (req : ApiRequest.t) (res : Response) :
  ApiResponse_from req res = Throw SyntaxError ↔ json res = None.
Proof.
  rewrite from_unfold. split.
  - destruct (json res) as [body|]; [|done].
    destruct (ok res); [done|].
    destruct (well_formed_error body) as [[]|e'] eqn:Hwf.
    + destruct (new_ApiError _) as [e|e] eqn:Hnew; [|].
      * apply well_formed_error_true in Hwf
          as (props & eprops & m & -> & Herr & Hmsg).
        rewrite (new_ApiError_shape _ _ _ _ _ Herr Hmsg) in Hnew.
        destruct (Js.ToString m); [|done]. by injection Hnew as <-.
      * apply well_formed_error_true in Hwf
          as (props & eprops & m & -> & Herr & Hmsg).
        rewrite (new_ApiError_shape _ _ _ _ _ Herr Hmsg) in Hnew.
        destruct (Js.ToString m); [done|]. by injection Hnew as <-.
    + done.
    + apply well_formed_error_Throw in Hwf as ->. done.
  - by intros ->.
Qed.

(** ** The request descriptor *)

(** X5: constructing a request without a body, or with the method [GET]
    or [HEAD] (a body given with them is dropped), throws a [TypeError]
    when the caller's headers are not valid, and otherwise returns a
    descriptor without a body whose headers are the caller's as
    [new Headers] reads them: no [content-type] is added or replaced.
    Either way the base URL has been composed. *)
Theorem new_without_body_keeps_headers (api : ApiClient) (path : string)
    (query : URLSearchParams.t) (headersInit : list (string * string))
    (method : string) (body : option Body.t) (h : gmap loc URL) (u : URL) :
  h !! baseUrl api = Some u →
  body = None ∨ method = "GET" ∨ method = "HEAD" →
  ∃ o h' u',
    ApiRequest.new api path query headersInit method body h = Some (o, h')
    ∧ h' !! baseUrl api = Some u'
    ∧ pathname u' = UrlPath.parse (ApiRequest.concat_path (pathname u) path)
    ∧ search u' = search_of query
    ∧ (Headers.new headersInit = None → o = None)
    ∧ (∀ hs, Headers.new headersInit = Some hs →
         o = Some (ApiRequest.mk api (baseUrl api) hs method None)).
Proof.
  intros Hl Hcase. eexists _, _, _. split; [by apply new_run|].
  split; [apply lookup_insert_eq|].
  split; [apply pathname_composed|]. split; [apply search_composed|].
  unfold constructed. destruct (Headers.new headersInit) as [hs0|].
  - split; [done|]. intros hs [= <-].
    destruct Hcase as [->|[->| ->]]; [done|by destruct body..].
  - by split.
Qed.

Lemma new_without_body_keeps_headers_witness :
  store_with (mkURL "http://api.test" "/" "") !! baseUrl client
  = Some (mkURL "http://api.test" "/" "")
  ∧ ∃ r h',
      ApiRequest.new client "/tracks" [] [("Content-Type", " text/plain ")]
        "HEAD" (Some (JsonBody.new JNull))
        (store_with (mkURL "http://api.test" "/" ""))
      = Some (Some r, h')
      ∧ ApiRequest.body r = None
      ∧ ApiRequest.headers r = [("content-type", "text/plain")].
Proof.
  split; [reflexivity|].
  destruct (new_without_body_keeps_headers client "/tracks" []
              [("Content-Type", " text/plain ")] "HEAD"
              (Some (JsonBody.new JNull))
              (store_with (mkURL "http://api.test" "/" ""))
              (mkURL "http://api.test" "/" "") eq_refl
              (or_intror (or_intror eq_refl)))
    as (o & h' & u' & Hrun & _ & _ & _ & _ & Hr).
  rewrite (Hr [("content-type", "text/plain")] eq_refl) in Hrun.
  eexists _, h'. split; [exact Hrun|]. split; reflexivity.
Defined.

(** X6: whatever the body and the method, a descriptor that the
    constructor returns reads every header other than [content-type] (in
    any case of letters) as the caller's headers do: forcing the content
    type touches no other header.  With valid caller headers the
    constructor returns, unless it was to attach a body whose declared
    content type is not a valid header value. *)
Theorem new_keeps_other_headers (api : ApiClient) (path : string)
    (query : URLSearchParams.t) (headersInit : list (string * string))
    (method : string) (body : option Body.t) (name : string)
    (hs : Headers.t) (h : gmap loc URL) (u : URL) :
  h !! baseUrl api = Some u →
  JsString.toLowerCase name ≠ "content-type" →
  Headers.new headersInit = Some hs →
  ∃ o h',
    ApiRequest.new api path query headersInit method body h = Some (o, h')
    ∧ (∀ r, o = Some r →
         Headers.get name (ApiRequest.headers r) = Headers.get name hs)
    ∧ (o = None →
       ∃ b, body = Some b ∧ method ≠ "GET" ∧ method ≠ "HEAD"
            ∧ Headers.valid_value (Headers.normalize (Body.contentType b))
              = false).
Proof.
  intros Hl Hname Hhs. eexists _, _. split; [by apply new_run|].
  unfold constructed. rewrite Hhs. destruct body as [b|]; [|by split; [intros r [= <-]|]].
  destruct (String.eqb_spec method "GET") as [->|Hget];
    [by split; [intros r [= <-]|]|].
  destruct (String.eqb_spec method "HEAD") as [->|Hhead];
    [by split; [intros r [= <-]|]|].
  cbn [negb andb].
  destruct (Headers.valid_value (Headers.normalize (Body.contentType b)))
    eqn:Hv.
  - rewrite (Headers_force_content_type _ _ Hv). split; [|done].
    intros r [= <-]. cbn [ApiRequest.headers]. by apply Headers_get_other.
  - rewrite (Headers_force_content_type_invalid _ _ Hv). split; [done|].
    intros _. by exists b.
Qed.

Lemma new_keeps_other_headers_witness :
  store_with (mkURL "http://api.test" "/" "") !! baseUrl client
  = Some (mkURL "http://api.test" "/" "")
  ∧ JsString.toLowerCase "Accept" ≠ "content-type"
  ∧ Headers.new [("Accept", "application/json"); ("Content-Type", "text/plain")]
    = Some [("accept", "application/json"); ("content-type", "text/plain")]
  ∧ ∃ r h',
      ApiRequest.new client "/tracks" []
        [("Accept", "application/json"); ("Content-Type", "text/plain")]
        "POST" (Some (JsonBody.new JNull))
        (store_with (mkURL "http://api.test" "/" ""))
      = Some (Some r, h')
      ∧ Headers.get "Accept" (ApiRequest.headers r)
        = Some (Some "application/json").
Proof.
  split; [reflexivity|]. split; [discriminate|]. split; [reflexivity|].
  destruct (new_keeps_other_headers client "/tracks" []
              [("Accept", "application/json"); ("Content-Type", "text/plain")]
              "POST" (Some (JsonBody.new JNull)) "Accept"
              [("accept", "application/json"); ("content-type", "text/plain")]
              (store_with (mkURL "http://api.test" "/" ""))
              (mkURL "http://api.test" "/" "") eq_refl
              ltac:(discriminate) eq_refl)
    as (o & h' & Hrun & Hget & _).
  destruct o as [r|]; [|discriminate Hrun].
  exists r, h'. split; [exact Hrun|]. exact (Hget r eq_refl).
Defined.

(** X7: with valid caller headers, a request constructed with a JSON body
    and a method other than [GET] and [HEAD] is returned, and fetching it
    hands the network the composed URL (the base path followed by the
    path as the URL parser reads it, and the query), that method, the
    JSON text of the value as body, and headers whose [content-type] is
    [application/json]. *)
Theorem fetch_sends_json_body (network : transport) (api : ApiClient)
    (path : string) (query : URLSearchParams.t)
    (headersInit : list (string * string)) (method : string) (value : JSON)
    (hs0 : Headers.t) (h : gmap loc URL) (u : URL) :
  h !! baseUrl api = Some u →
  method ≠ "GET" →
  method ≠ "HEAD" →
  Headers.new headersInit = Some hs0 →
  ∃ r h' u',
    ApiRequest.new api path query headersInit method
      (Some (JsonBody.new value)) h
    = Some (Some r, h')
    ∧ ApiRequest.fetch network r h'
      = Some (network u' method (ApiRequest.headers r)
                (Some (Json.stringify value)), h')
    ∧ Headers.get "content-type" (ApiRequest.headers r)
      = Some (Some "application/json")
    ∧ h' !! baseUrl api = Some u'
    ∧ origin u' = origin u
    ∧ pathname u' = UrlPath.parse (ApiRequest.concat_path (pathname u) path)
    ∧ search u' = search_of query.
Proof.
  intros Hl Hget Hhead Hhs.
  rewrite (new_run _ _ _ _ _ _ _ _ Hl). unfold constructed. rewrite Hhs.
  apply String.eqb_neq in Hget, Hhead. rewrite Hget, Hhead. cbn [negb andb].
  rewrite (Headers_force_content_type
             (Body.contentType (JsonBody.new value)) hs0 eq_refl).
  eexists _, _, _. split; [reflexivity|].
  unfold ApiRequest.fetch, mbind, deref, mret. cbn [ApiRequest.url].
  rewrite lookup_insert_eq. split; [reflexivity|].
  split; [apply (Headers_get_forced "application/json")|].
  split; [reflexivity|]. split; [apply origin_composed|].
  split; [apply pathname_composed|apply search_composed].
Qed.

Lemma fetch_sends_json_body_witness :
  store_with (mkURL "http://api.test" "/" "") !! baseUrl client
  = Some (mkURL "http://api.test" "/" "")
  ∧ ∃ r h',
      ApiRequest.new client "/tracks" [("limit", "5")]
        [("Content-Type", "text/plain")] "POST"
        (Some (JsonBody.new (JArray [JNumber 1; JNumber 2])))
        (store_with (mkURL "http://api.test" "/" ""))
      = Some (Some r, h')
      ∧ ApiRequest.fetch echo r h'
        = Some (Some (mkResponse 200
                        (Some (JObject
                                 [("path", JString "/tracks?limit=5");
                                  ("method", JString "POST");
                                  ("content-type", JString "application/json");
                                  ("body", JString "[1,2]")]))), h').
Proof.
  split; [reflexivity|].
  destruct (fetch_sends_json_body echo client "/tracks" [("limit", "5")]
              [("Content-Type", "text/plain")] "POST"
              (JArray [JNumber 1; JNumber 2])
              [("content-type", "text/plain")]
              (store_with (mkURL "http://api.test" "/" ""))
              (mkURL "http://api.test" "/" "") eq_refl
              ltac:(discriminate) ltac:(discriminate) eq_refl)
    as (r & h' & u' & Hrun & Hfetch & Hct & _ & _ & Hp & Hs).
  exists r, h'. split; [exact Hrun|].
  unfold echo in Hfetch. rewrite Hct, Hp, Hs in Hfetch. exact Hfetch.
Defined.

(** ** The endpoint methods and the store *)

Lemma dom_insert_present (l : loc) (u v : URL) (h : gmap loc URL) :
  h !! l = Some u → dom (<[l := v]> h) = dom h.
Proof.
  intros Hl. rewrite dom_insert_L. apply elem_of_dom_2 in Hl.
  apply subseteq_union_1_L, singleton_subseteq_l, Hl.
Qed.

Lemma path_of_starts_with_slash c :
  ∃ rest, path_of c = String "/" rest.
Proof. destruct c; by eexists. Qed.

(** X8: a call of any public method changes nothing in the store but the
    client's own URL object: no object is created or removed, every other
    object is as it was, and the origin of the client's URL is kept. *)
Theorem perform_frame (network : transport) (this : ApiClient)
    (c : operation) (h : gmap loc URL) (u : URL) :
  h !! baseUrl this = Some u →
  ∃ o h' u',
    perform network this c h = Some (o, h')
    ∧ h' !! baseUrl this = Some u'
    ∧ origin u' = origin u
    ∧ dom h' = dom h
    ∧ (∀ l, l ≠ baseUrl this → h' !! l = h !! l).
Proof.
  intros Hl. eexists _, _, _. split; [by apply perform_run|].
  split; [apply lookup_insert_eq|]. split; [apply origin_composed|].
  split; [by eapply dom_insert_present|].
  intros l Hne. by rewrite lookup_insert_ne.
Qed.

Lemma perform_frame_witness :
  store_with (mkURL "http://api.test" "/v1" "") !! baseUrl client
  = Some (mkURL "http://api.test" "/v1" "")
  ∧ ∃ o h' u',
      perform unreachable client (GetTrack "t1")
        (store_with (mkURL "http://api.test" "/v1" ""))
      = Some (o, h')
      ∧ h' !! baseUrl client = Some u'
      ∧ origin u' = "http://api.test"
      ∧ dom h' = dom (store_with (mkURL "http://api.test" "/v1" "")).
Proof.
  split; [reflexivity|].
  destruct (perform_frame unreachable client (GetTrack "t1")
              (store_with (mkURL "http://api.test" "/v1" ""))
              (mkURL "http://api.test" "/v1" "") eq_refl)
    as (o & h' & u' & Hrun & Hu & Ho & Hd & _).
  exists o, h', u'. split; [exact Hrun|]. split; [exact Hu|].
  split; [exact Ho|exact Hd].
Defined.

(** X9: two clients that hold different URL objects do not disturb each
    other: after a call of the first, a call of the second resolves to
    what it would have resolved to without the first, and leaves in its
    URL object what it would have left. *)
Theorem clients_with_distinct_urls_are_independent (network : transport)
    (a b : ApiClient) (c1 c2 : operation) (h : gmap loc URL) (ua ub : URL) :
  baseUrl a ≠ baseUrl b →
  h !! baseUrl a = Some ua →
  h !! baseUrl b = Some ub →
  ∃ o1 h1 o2 h2 h2',
    perform network a c1 h = Some (o1, h1)
    ∧ perform network b c2 h1 = Some (o2, h2)
    ∧ perform network b c2 h = Some (o2, h2')
    ∧ h2 !! baseUrl b = h2' !! baseUrl b
    ∧ h2 !! baseUrl a = h1 !! baseUrl a.
Proof.
  intros Hne Ha Hb. eexists _, _, _, _, _.
  split; [by apply perform_run|].
  split; [apply perform_run; by rewrite lookup_insert_ne|].
  split; [by apply perform_run|].
  split; [by rewrite !lookup_insert_eq|].
  by rewrite lookup_insert_ne.
Qed.

Lemma clients_with_distinct_urls_are_independent_witness :
  baseUrl client ≠ baseUrl (mkApiClient 2%positive)
  ∧ ∃ o1 h1 o2 h2,
      perform unreachable client (ListArtists None None)
        (<[2%positive := mkURL "http://other.test" "/" ""]>
           (store_with (mkURL "http://api.test" "/" "")))
      = Some (o1, h1)
      ∧ perform unreachable (mkApiClient 2%positive) (ListTracks None None None) h1
        = Some (o2, h2)
      ∧ h2 !! 2%positive = Some (mkURL "http://other.test" "/tracks" "").
Proof.
  split; [discriminate|].
  destruct (clients_with_distinct_urls_are_independent unreachable client
              (mkApiClient 2%positive) (ListArtists None None)
              (ListTracks None None None)
              (<[2%positive := mkURL "http://other.test" "/" ""]>
                 (store_with (mkURL "http://api.test" "/" "")))
              (mkURL "http://api.test" "/" "")
              (mkURL "http://other.test" "/" "")
              ltac:(discriminate) eq_refl eq_refl)
    as (o1 & h1 & o2 & h2 & h2' & Hrun1 & Hrun2 & Hrun & Hsame & _).
  exists o1, h1, o2, h2. split; [exact Hrun1|]. split; [exact Hrun2|].
  transitivity (h2' !! baseUrl (mkApiClient 2%positive)); [exact Hsame|].
  rewrite (perform_run unreachable (mkApiClient 2%positive)
             (ListTracks None None None) _
             (mkURL "http://other.test" "/" "")) in Hrun by reflexivity.
  injection Hrun as _ <-. apply lookup_insert_eq.
Defined.

(** X10: unlike the path, the query of a call does not stay in the
    client's URL object: after any first call, the query string of a
    second call is that of the second call's own parameters. *)
Theorem query_does_not_outlive_call (network : transport) (this : ApiClient)
    (c1 c2 : operation) (h : gmap loc URL) (u : URL) :
  h !! baseUrl this = Some u →
  ∃ o1 h1 o2 h2 u2,
    perform network this c1 h = Some (o1, h1)
    ∧ perform network this c2 h1 = Some (o2, h2)
    ∧ h2 !! baseUrl this = Some u2
    ∧ search u2 = search_of (query_of c2).
Proof.
  intros Hl. eexists _, _, _, _, _.
  split; [by apply perform_run|].
  split; [apply perform_run, lookup_insert_eq|].
  split; [apply lookup_insert_eq|]. apply search_composed.
Qed.

Lemma query_does_not_outlive_call_witness :
  store_with (mkURL "http://api.test" "/" "") !! baseUrl client
  = Some (mkURL "http://api.test" "/" "")
  ∧ ∃ o1 h1 o2 h2 u2,
      perform unreachable client (ListArtists (Some 5) (Some 2))
        (store_with (mkURL "http://api.test" "/" ""))
      = Some (o1, h1)
      ∧ perform unreachable client (GetAlbum "b1") h1 = Some (o2, h2)
      ∧ h2 !! baseUrl client = Some u2
      ∧ search u2 = EmptyString.
Proof.
  split; [reflexivity|].
  apply (query_does_not_outlive_call unreachable client
           (ListArtists (Some 5) (Some 2)) (GetAlbum "b1")
           (store_with (mkURL "http://api.test" "/" ""))
           (mkURL "http://api.test" "/" "")).
  reflexivity.
Defined.

Lemma endsWith_slash_append_slash s : JsString.endsWith "/" (s +:+ "/") = true.
Proof. apply endsWith_append. Qed.

Lemma concat_path_root base :
  ApiRequest.concat_path base "/"
  = if JsString.endsWith "/" base then base else base +:+ "/".
Proof.
  unfold ApiRequest.concat_path. destruct (JsString.endsWith "/" base); cbn.
  - induction base as [|c b IH]; [done|]. by rewrite append_String, IH.
  - done.
Qed.

(** X11: [info] asks for the path [/]: a base path that ends with a slash
    is left as it is, any other gets one slash appended, so after [info]
    the base path always ends with a slash; its query string is empty. *)
Theorem info_ends_path_with_slash (network : transport) (this : ApiClient)
    (h : gmap loc URL) (u : URL) :
  h !! baseUrl this = Some u →
  ∃ o h' u',
    info network this h = Some (o, h')
    ∧ h' !! baseUrl this = Some u'
    ∧ pathname u'
      = (if JsString.endsWith "/" (pathname u) then pathname u
         else pathname u +:+ "/")
    ∧ JsString.endsWith "/" (pathname u') = true
    ∧ search u' = EmptyString.
Proof.
  intros Hl. eexists _, _, _.
  split; [by apply (perform_run network this Info)|].
  split; [apply lookup_insert_eq|].
  rewrite pathname_composed, search_composed. change (path_of Info) with "/".
  rewrite parse_concat_path by (apply parse_pathname || reflexivity).
  rewrite concat_path_root. split; [done|]. split; [|done].
  destruct (JsString.endsWith "/" (pathname u)) eqn:Hend; [done|].
  apply endsWith_slash_append_slash.
Qed.

Lemma info_ends_path_with_slash_witness :
  store_with (mkURL "http://api.test" "/v1" "?x=1") !! baseUrl client
  = Some (mkURL "http://api.test" "/v1" "?x=1")
  ∧ ∃ o h' u',
      info unreachable client (store_with (mkURL "http://api.test" "/v1" "?x=1"))
      = Some (o, h')
      ∧ h' !! baseUrl client = Some u'
      ∧ pathname u' = "/v1/".
Proof.
  split; [reflexivity|].
  destruct (info_ends_path_with_slash unreachable client
              (store_with (mkURL "http://api.test" "/v1" "?x=1"))
              (mkURL "http://api.test" "/v1" "?x=1") eq_refl)
    as (o & h' & u' & Hrun & Hu & Hp & _).
  exists o, h', u'. split; [exact Hrun|]. split; [exact Hu|exact Hp].
Defined.

(** X12: when the network rejects the [fetch], the call throws a
    [TypeError], and the path of the call has been composed onto the
    client's base path all the same: the base path is then the parser's
    reading of the old base path followed by the path of the call, which
    is that very string when the parser leaves the path of the call
    unchanged. *)
Theorem rejected_fetch_still_appends_path (network : transport)
    (this : ApiClient) (c : operation) (h : gmap loc URL) (u : URL) :
  h !! baseUrl this = Some u →
  network (composed u (path_of c) (query_of c)) "GET" [] None = None →
  ∃ h' u',
    perform network this c h = Some (Throw TypeError, h')
    ∧ h' !! baseUrl this = Some u'
    ∧ pathname u'
      = UrlPath.parse (ApiRequest.concat_path (pathname u) (path_of c))
    ∧ (UrlPath.parse (path_of c) = path_of c →
       pathname u' = ApiRequest.concat_path (pathname u) (path_of c)).
Proof.
  intros Hl Hnet. eexists _, _.
  rewrite (perform_run _ _ _ _ _ Hl). unfold response_to. cbn.
  rewrite Hnet. split; [done|]. split; [apply lookup_insert_eq|].
  rewrite pathname_composed. split; [done|]. intros Hc.
  apply parse_concat_path; [apply parse_pathname|done].
Qed.

Lemma rejected_fetch_still_appends_path_witness :
  store_with (mkURL "http://api.test" "/" "") !! baseUrl client
  = Some (mkURL "http://api.test" "/" "")
  ∧ down_at "/artists/a1"
      (composed (mkURL "http://api.test" "/" "") "/artists/a1" [])
      "GET" [] None
    = None
  ∧ ∃ h' u',
      perform (down_at "/artists/a1") client (GetArtist "a1")
        (store_with (mkURL "http://api.test" "/" ""))
      = Some (Throw TypeError, h')
      ∧ h' !! baseUrl client = Some u'
      ∧ pathname u' = "/artists/a1".
Proof.
  split; [reflexivity|]. split; [reflexivity|].
  destruct (rejected_fetch_still_appends_path (down_at "/artists/a1") client
              (GetArtist "a1")
              (store_with (mkURL "http://api.test" "/" ""))
              (mkURL "http://api.test" "/" "") eq_refl eq_refl)
    as (h' & u' & Hrun & Hl & _ & Hplain).
  exists h', u'. split; [exact Hrun|]. split; [exact Hl|].
  exact (Hplain eq_refl).
Defined.

(** X13: the public methods only ever make [GET] requests without headers
    and without a body: two networks that answer those alike make every
    public method behave alike. *)
Theorem public_methods_only_get (network network' : transport)
    (this : ApiClient) (c : operation) (h : gmap loc URL) :
  (∀ u, network u "GET" [] None = network' u "GET" [] None) →
  perform network this c h = perform network' this c h.
Proof.
  intros Hsame. destruct (h !! baseUrl this) as [u|] eqn:Hl.
  - rewrite !(perform_run _ _ _ _ _ Hl). unfold response_to. cbn.
    by rewrite Hsame.
  - rewrite !perform_request.
    unfold and_then, mbind, request, ApiRequest.new, mbind,
      ApiRequest.concatUrl, mbind, deref.
    by rewrite Hl.
Qed.

Lemma public_methods_only_get_witness :
  (∀ u, server (mkResponse 200 (Some JNull)) u "GET" [] None
        = get_only (mkResponse 200 (Some JNull)) u "GET" [] None)
  ∧ perform (server (mkResponse 200 (Some JNull))) client
      (ListAlbums None None) (store_with (mkURL "http://api.test" "/" ""))
    = perform (get_only (mkResponse 200 (Some JNull))) client
        (ListAlbums None None) (store_with (mkURL "http://api.test" "/" "")).
Proof.
  split; [reflexivity|].
  apply (public_methods_only_get (server (mkResponse 200 (Some JNull)))
           (get_only (mkResponse 200 (Some JNull))) client
           (ListAlbums None None)
           (store_with (mkURL "http://api.test" "/" ""))).
  reflexivity.
Defined.

(** X14: an identifier is put into the path as it is, a slash in it
    included: asking for the artist [id/albums] is asking for the albums
    of the artist [id], and likewise for [id/tracks] of an artist or of
    an album. *)
Theorem identifier_with_slash_reaches_sub_resource (network : transport)
    (this : ApiClient) (id : string) (h : gmap loc URL) :
  getArtist network this (id +:+ "/albums") h
  = listArtistAlbums network this id None None h
  ∧ getArtist network this (id +:+ "/tracks") h
    = listArtistTracks network this id None None h
  ∧ getAlbum network this (id +:+ "/tracks") h
    = listAlbumTracks network this id None None h.
Proof. done. Qed.

(** X15: the track listing serializes [sort] as the key, a percent-encoded
    colon and the direction, for each of the eight values of the type. *)
Theorem listTracks_sort_is_percent_encoded (network : transport)
    (this : ApiClient) (k : Sort.key) (d : Sort.direction)
    (h : gmap loc URL) (u : URL) :
  h !! baseUrl this = Some u →
  ∃ o h' u',
    listTracks network this None None (Some (k, d)) h = Some (o, h')
    ∧ h' !! baseUrl this = Some u'
    ∧ search u'
      = "?sort=" +:+ Sort.key_string k +:+ "%3A" +:+ Sort.direction_string d.
Proof.
  intros Hl. eexists _, _, _.
  split; [by apply (perform_run network this (ListTracks None None (Some (k, d))))|].
  split; [apply lookup_insert_eq|].
  rewrite search_composed. by destruct k, d.
Qed.

Lemma listTracks_sort_is_percent_encoded_witness :
  store_with (mkURL "http://api.test" "/" "") !! baseUrl client
  = Some (mkURL "http://api.test" "/" "")
  ∧ ∃ o h' u',
      listTracks unreachable client None None (Some (Sort.track_no, Sort.desc))
        (store_with (mkURL "http://api.test" "/" ""))
      = Some (o, h')
      ∧ h' !! baseUrl client = Some u'
      ∧ search u' = "?sort=track_no%3Adesc".
Proof.
  split; [reflexivity|].
  apply (listTracks_sort_is_percent_encoded unreachable client Sort.track_no
           Sort.desc (store_with (mkURL "http://api.test" "/" ""))
           (mkURL "http://api.test" "/" "")).
  reflexivity.
Defined.

Lemma concat_path_leading_slash base rest :
  ApiRequest.concat_path base (String "/" rest)
  = if JsString.endsWith "/" base then base +:+ rest
    else base +:+ String "/" rest.
Proof.
  unfold ApiRequest.concat_path. by destruct (JsString.endsWith "/" base).
Qed.

(** X16: a base path written with or without its final slash gives the
    same request path, for every public method: their paths all start
    with a slash, which is dropped after a base that ends with one.  The
    request path is the parser's reading of the base path without its
    final slash followed by the method's path, and is that very string
    when the parser leaves the method's path unchanged. *)
Theorem trailing_slash_of_base_is_immaterial (network : transport)
    (this : ApiClient) (c : operation) (h1 h2 : gmap loc URL) (u1 u2 : URL) :
  h1 !! baseUrl this = Some u1 →
  h2 !! baseUrl this = Some u2 →
  JsString.endsWith "/" (pathname u1) = false →
  pathname u2 = pathname u1 +:+ "/" →
  ∃ o1 h1' o2 h2' u1' u2',
    perform network this c h1 = Some (o1, h1')
    ∧ perform network this c h2 = Some (o2, h2')
    ∧ h1' !! baseUrl this = Some u1'
    ∧ h2' !! baseUrl this = Some u2'
    ∧ pathname u1' = pathname u2'
    ∧ pathname u1' = UrlPath.parse (pathname u1 +:+ path_of c)
    ∧ (UrlPath.parse (path_of c) = path_of c →
       pathname u1' = pathname u1 +:+ path_of c).
Proof.
  intros Hl1 Hl2 Hend Hp. eexists _, _, _, _, _, _.
  split; [by apply perform_run|]. split; [by apply perform_run|].
  split; [apply lookup_insert_eq|]. split; [apply lookup_insert_eq|].
  rewrite !pathname_composed.
  assert (H1 : ApiRequest.concat_path (pathname u1) (path_of c)
               = pathname u1 +:+ path_of c).
  { unfold ApiRequest.concat_path. by rewrite Hend. }
  assert (H2 : ApiRequest.concat_path (pathname u2) (path_of c)
               = pathname u1 +:+ path_of c).
  { destruct (path_of_starts_with_slash c) as [rest ->].
    rewrite concat_path_leading_slash, Hp, endsWith_slash_append_slash.
    by rewrite append_assoc. }
  rewrite H2. split; [by rewrite H1|]. split; [by rewrite H1|].
  intros Hc. rewrite <- H1.
  apply parse_concat_path; [apply parse_pathname|done].
Qed.

Lemma trailing_slash_of_base_is_immaterial_witness :
  JsString.endsWith "/" "/v1" = false
  ∧ ∃ o1 h1' o2 h2' u1' u2',
      perform echo client (ListAlbumTracks "b1" None None)
        (store_with (mkURL "http://api.test" "/v1" ""))
      = Some (o1, h1')
      ∧ perform echo client (ListAlbumTracks "b1" None None)
          (store_with (mkURL "http://api.test" "/v1/" ""))
        = Some (o2, h2')
      ∧ h1' !! baseUrl client = Some u1'
      ∧ h2' !! baseUrl client = Some u2'
      ∧ pathname u1' = pathname u2'
      ∧ pathname u1' = "/v1/albums/b1/tracks".
Proof.
  split; [reflexivity|].
  destruct (trailing_slash_of_base_is_immaterial echo client
              (ListAlbumTracks "b1" None None)
              (store_with (mkURL "http://api.test" "/v1" ""))
              (store_with (mkURL "http://api.test" "/v1/" ""))
              (mkURL "http://api.test" "/v1" "")
              (mkURL "http://api.test" "/v1/" "")
              eq_refl eq_refl eq_refl eq_refl)
    as (o1 & h1' & o2 & h2' & u1' & u2'
        & Hrun1 & Hrun2 & Hl1 & Hl2 & Heq & _ & Hplain).
  exists o1, h1', o2, h2', u1', u2'.
  split; [exact Hrun1|]. split; [exact Hrun2|]. split; [exact Hl1|].
  split; [exact Hl2|]. split; [exact Heq|]. exact (Hplain eq_refl).
Defined.

(** X17: a request descriptor does not keep a URL of its own.  Once a
    second request has been constructed on the same client (or its
    construction has thrown), fetching the first request hands the
    network the first request's own method, headers and body, and the URL
    object as the second construction left it: the path of the second
    composed onto the path of the first, and the query of the second. *)
Theorem fetch_after_second_construction (network : transport)
    (api : ApiClient) (p q : string) (query1 query2 : URLSearchParams.t)
    (headers1 headers2 : list (string * string)) (method1 method2 : string)
    (body1 body2 : option Body.t) (h : gmap loc URL) (u : URL) :
  h !! baseUrl api = Some u →
  ∃ o1 h1 o2 h2 u2,
    ApiRequest.new api p query1 headers1 method1 body1 h = Some (o1, h1)
    ∧ ApiRequest.new api q query2 headers2 method2 body2 h1 = Some (o2, h2)
    ∧ h2 !! baseUrl api = Some u2
    ∧ origin u2 = origin u
    ∧ pathname u2
      = UrlPath.parse
          (ApiRequest.concat_path
             (UrlPath.parse (ApiRequest.concat_path (pathname u) p)) q)
    ∧ search u2 = search_of query2
    ∧ (∀ r1, o1 = Some r1 →
         ApiRequest.method r1 = method1
         ∧ ApiRequest.fetch network r1 h2
           = Some (network u2 (ApiRequest.method r1) (ApiRequest.headers r1)
                     (Body.body <$> ApiRequest.body r1), h2)).
Proof.
  intros Hl. eexists _, _, _, _, _.
  split; [by apply new_run|].
  split; [apply new_run, lookup_insert_eq|].
  split; [apply lookup_insert_eq|].
  split; [done|].
  split; [by rewrite !pathname_composed|].
  split; [apply search_composed|].
  intros r1 Hr1. apply url_constructed in Hr1 as (Hurl & _ & Hm).
  split; [done|].
  unfold ApiRequest.fetch, mbind, deref, mret.
  by rewrite Hurl, lookup_insert_eq.
Qed.

Lemma fetch_after_second_construction_witness :
  store_with (mkURL "http://api.test" "/" "") !! baseUrl client
  = Some (mkURL "http://api.test" "/" "")
  ∧ ∃ r1 h1 o2 h2,
      ApiRequest.new client "/artists" [("limit", "5")] [] "GET" None
        (store_with (mkURL "http://api.test" "/" ""))
      = Some (Some r1, h1)
      ∧ ApiRequest.new client "/tracks" [("page", "2")] [] "GET" None h1
        = Some (o2, h2)
      ∧ ApiRequest.fetch echo r1 h2
        = Some (Some (mkResponse 200
                        (Some (JObject
                                 [("path", JString "/artists/tracks?page=2");
                                  ("method", JString "GET");
                                  ("content-type", JNull);
                                  ("body", JNull)]))), h2).
Proof.
  split; [reflexivity|].
  destruct (fetch_after_second_construction echo client "/artists" "/tracks"
              [("limit", "5")] [("page", "2")] [] [] "GET" "GET" None None
              (store_with (mkURL "http://api.test" "/" ""))
              (mkURL "http://api.test" "/" "") eq_refl)
    as (o1 & h1 & o2 & h2 & u2 & Hrun1 & Hrun2 & _ & _ & Hp & Hs & Hfetch).
  destruct o1 as [r1|]; [|discriminate Hrun1].
  exists r1, h1, o2, h2. split; [exact Hrun1|]. split; [exact Hrun2|].
  destruct (Hfetch r1 eq_refl) as (_ & Hf).
  injection Hrun1 as <- _.
  unfold echo in Hf. rewrite Hp, Hs in Hf. exact Hf.
Defined.

(** ** Runs of calls *)

Lemma perform_all_run network this cs :
  ∀ h u,
    h !! baseUrl this = Some u →
    ∃ os h' u',
      perform_all network this cs h = Some (os, h')
      ∧ List.length os = List.length cs
      ∧ h' !! baseUrl this = Some u'
      ∧ pathname u'
        = fold_left (λ base path,
                       UrlPath.parse (ApiRequest.concat_path base path))
            (map path_of cs) (pathname u).
Proof.
  induction cs as [|c cs IH]; intros h u Hl.
  - by exists [], h, u.
  - cbn [perform_all]. unfold mbind at 1.
    rewrite (perform_run _ _ _ _ _ Hl).
    destruct (IH (<[baseUrl this := composed u (path_of c) (query_of c)]> h)
                (composed u (path_of c) (query_of c)))
      as (os & h' & u' & Hrun & Hlen & Hu & Hp); [apply lookup_insert_eq|].
    unfold mbind. rewrite Hrun. eexists _, _, _. split; [reflexivity|].
    split; [by cbn; rewrite Hlen|]. split; [exact Hu|].
    rewrite Hp. cbn [map fold_left]. by rewrite pathname_composed.
Qed.

Lemma plain_path_parse p : plain_path p = true → UrlPath.parse p = p.
Proof. apply String.eqb_eq. Qed.

Lemma fold_parse_plain (cs : list operation) :
  ∀ base,
    UrlPath.parse base = base →
    forallb (λ c, plain_path (path_of c)) cs = true →
    fold_left (λ base path, UrlPath.parse (ApiRequest.concat_path base path))
      (map path_of cs) base
    = fold_left ApiRequest.concat_path (map path_of cs) base.
Proof.
  induction cs as [|c cs IH]; intros base Hbase Hcs; [done|].
  cbn [forallb] in Hcs. apply andb_prop in Hcs as [Hc%plain_path_parse Hcs].
  cbn [map fold_left]. rewrite (parse_concat_path _ _ Hbase Hc).
  apply IH; [by apply parse_concat_path|done].
Qed.

Lemma string_length_append (a b : string) :
  String.length (a +:+ b) = (String.length a + String.length b)%nat.
Proof. induction a as [|c a IH]; [done|]. rewrite append_String. cbn. by rewrite IH. Qed.

Lemma concat_path_length base path :
  (String.length base ≤ String.length (ApiRequest.concat_path base path))%nat.
Proof. unfold ApiRequest.concat_path. rewrite string_length_append. lia. Qed.

Lemma concat_path_length_strict base c :
  c ≠ Info →
  (String.length base
   < String.length (ApiRequest.concat_path base (path_of c)))%nat.
Proof.
  intros Hc.
  assert (∃ d rest, path_of c = String "/" (String d rest)) as (d & rest & ->).
  { destruct c; try done; by eexists _, _. }
  rewrite concat_path_leading_slash.
  destruct (JsString.endsWith "/" base); rewrite string_length_append; cbn; lia.
Qed.

Lemma fold_concat_path_length paths :
  ∀ base,
    (String.length base
     ≤ String.length (fold_left ApiRequest.concat_path paths base))%nat.
Proof.
  induction paths as [|p paths IH]; intros base; [done|]. cbn [fold_left].
  etrans; [apply (concat_path_length base p)|apply IH].
Qed.

(** X18: the calls of a client add up in its base path: after any list of
    calls, made one after the other, the base path is the first base path
    with the path of each call composed onto it in turn and read by the
    URL parser each time; one outcome is returned for each call.  When
    the parser leaves the path of every call unchanged, the base path is
    the first base path with the path of each call appended in turn. *)
Theorem calls_accumulate_in_order (network : transport) (this : ApiClient)
    (cs : list operation) (h : gmap loc URL) (u : URL) :
  h !! baseUrl this = Some u →
  ∃ os h' u',
    perform_all network this cs h = Some (os, h')
    ∧ List.length os = List.length cs
    ∧ h' !! baseUrl this = Some u'
    ∧ pathname u'
      = fold_left (λ base path,
                     UrlPath.parse (ApiRequest.concat_path base path))
          (map path_of cs) (pathname u)
    ∧ (forallb (λ c, plain_path (path_of c)) cs = true →
       pathname u'
       = fold_left ApiRequest.concat_path (map path_of cs) (pathname u)).
Proof.
  intros Hl.
  destruct (perform_all_run network this cs h u Hl)
    as (os & h' & u' & Hrun & Hlen & Hu & Hp).
  exists os, h', u'. split; [done|]. split; [done|]. split; [done|].
  split; [done|]. intros Hcs. rewrite Hp.
  apply fold_parse_plain; [apply parse_pathname|done].
Qed.

Lemma calls_accumulate_in_order_witness :
  store_with (mkURL "http://api.test" "/" "") !! baseUrl client
  = Some (mkURL "http://api.test" "/" "")
  ∧ ∃ os h' u',
      perform_all echo client
        [Info; ListArtists None None; GetAlbum "b1"; Info]
        (store_with (mkURL "http://api.test" "/" ""))
      = Some (os, h')
      ∧ List.length os = 4%nat
      ∧ h' !! baseUrl client = Some u'
      ∧ pathname u' = "/artists/albums/b1/".
Proof.
  split; [reflexivity|].
  destruct (calls_accumulate_in_order echo client
              [Info; ListArtists None None; GetAlbum "b1"; Info]
              (store_with (mkURL "http://api.test" "/" ""))
              (mkURL "http://api.test" "/" "") eq_refl)
    as (os & h' & u' & Hrun & Hlen & Hl & _ & Hplain).
  exists os, h', u'. split; [exact Hrun|]. split; [exact Hlen|].
  split; [exact Hl|]. exact (Hplain eq_refl).
Defined.

(** X19: as long as the parser leaves the paths of the calls unchanged
    (identifiers without dot segments, separators or characters that are
    escaped), the base path is never restored: once a method other than
    [info] has been called, the base path is strictly longer than it was,
    and it stays so after any further calls. *)
Theorem base_path_never_restored (network : transport) (this : ApiClient)
    (c : operation) (cs : list operation) (h : gmap loc URL) (u : URL) :
  h !! baseUrl this = Some u →
  c ≠ Info →
  plain_path (path_of c) = true →
  forallb (λ c, plain_path (path_of c)) cs = true →
  ∃ o h1 os h2 u2,
    perform network this c h = Some (o, h1)
    ∧ perform_all network this cs h1 = Some (os, h2)
    ∧ h2 !! baseUrl this = Some u2
    ∧ (String.length (pathname u) < String.length (pathname u2))%nat
    ∧ pathname u2 ≠ pathname u.
Proof.
  intros Hl Hc Hplain Hcs.
  destruct (perform_all_run network this cs
              (<[baseUrl this := composed u (path_of c) (query_of c)]> h)
              (composed u (path_of c) (query_of c)))
    as (os & h2 & u2 & Hrun & _ & Hu & Hp); [apply lookup_insert_eq|].
  assert (String.length (pathname u) < String.length (pathname u2))%nat as Hlt.
  { rewrite Hp, fold_parse_plain by (apply parse_pathname || done).
    rewrite pathname_composed.
    rewrite parse_concat_path
      by (apply parse_pathname || by apply plain_path_parse).
    eapply Nat.lt_le_trans; [by apply concat_path_length_strict|].
    apply fold_concat_path_length. }
  exists (response_to network (plain_request this)
            (composed u (path_of c) (query_of c))),
    (<[baseUrl this := composed u (path_of c) (query_of c)]> h), os, h2, u2.
  split; [by apply perform_run|]. split; [exact Hrun|]. split; [exact Hu|].
  split; [exact Hlt|]. intros Heq. rewrite Heq in Hlt. lia.
Qed.

Lemma base_path_never_restored_witness :
  store_with (mkURL "http://api.test" "/" "") !! baseUrl client
  = Some (mkURL "http://api.test" "/" "")
  ∧ GetTrack "t1" ≠ Info
  ∧ plain_path (path_of (GetTrack "t1")) = true
  ∧ ∃ o h1 os h2 u2,
      perform echo client (GetTrack "t1")
        (store_with (mkURL "http://api.test" "/" ""))
      = Some (o, h1)
      ∧ perform_all echo client [Info; ListAlbums None None] h1
        = Some (os, h2)
      ∧ h2 !! baseUrl client = Some u2
      ∧ pathname u2 ≠ "/".
Proof.
  split; [reflexivity|]. split; [discriminate|]. split; [reflexivity|].
  destruct (base_path_never_restored echo client (GetTrack "t1")
              [Info; ListAlbums None None]
              (store_with (mkURL "http://api.test" "/" ""))
              (mkURL "http://api.test" "/" "") eq_refl ltac:(discriminate)
              eq_refl eq_refl)
    as (o & h1 & os & h2 & u2 & Hrun1 & Hrun2 & Hu & _ & Hne).
  exists o, h1, os, h2, u2. split; [exact Hrun1|]. split; [exact Hrun2|].
  split; [exact Hu|exact Hne].
Defined.

(** ** Identifiers in the query string *)

Lemma occurrences_append c (a b : string) :
  occurrences c (a +:+ b) = (occurrences c a + occurrences c b)%nat.
Proof.
  induction a as [|d a IH]; [done|]. rewrite append_String. cbn.
  rewrite IH. lia.
Qed.

Lemma encode_String c rest :
  URLSearchParams.encode (String c rest)
  = URLSearchParams.encode (String c EmptyString) +:+ URLSearchParams.encode rest.
Proof.
  cbn [URLSearchParams.encode]. rewrite append_assoc. f_equal.
Qed.

Lemma encode_char_no_separator c :
  occurrences "&" (URLSearchParams.encode (String c EmptyString)) = 0%nat
  ∧ occurrences "=" (URLSearchParams.encode (String c EmptyString)) = 0%nat.
Proof. destruct c as [[] [] [] [] [] [] [] []]; by vm_compute. Qed.

Lemma encode_no_separator s :
  occurrences "&" (URLSearchParams.encode s) = 0%nat
  ∧ occurrences "=" (URLSearchParams.encode s) = 0%nat.
Proof.
  induction s as [|c s [IH1 IH2]]; [done|].
  rewrite encode_String, !occurrences_append, IH1, IH2.
  destruct (encode_char_no_separator c) as [-> ->]. done.
Qed.

Lemma occurrences_id_parameters (ids : list string) :
  occurrences "&"
    (JsString.join "&" (map (λ id, "id=" +:+ URLSearchParams.encode id) ids))
  = Nat.pred (List.length ids)
  ∧ occurrences "="
      (JsString.join "&" (map (λ id, "id=" +:+ URLSearchParams.encode id) ids))
    = List.length ids.
Proof.
  unfold JsString.join. induction ids as [|id ids [IH1 IH2]]; [done|].
  cbn [map String.concat]. destruct (encode_no_separator id) as [Ha He].
  destruct ids as [|id' ids].
  - cbn [map]. rewrite !occurrences_append, Ha, He. done.
  - cbn [map] in *. rewrite !occurrences_append, IH1, IH2, Ha, He. cbn. lia.
Qed.

Lemma toString_ids (ids : list string) :
  URLSearchParams.toString (map (λ id, ("id", id)) ids)
  = JsString.join "&" (map (λ id, "id=" +:+ URLSearchParams.encode id) ids).
Proof. unfold URLSearchParams.toString. by rewrite map_map. Qed.

(** X20: whatever characters the identifiers hold, the query string of the
    bulk fetch of artists has one [id] parameter for each identifier and
    no other: as many [=] as identifiers, and one [&] fewer. *)
Theorem getArtists_one_parameter_per_id (network : transport)
    (this : ApiClient) (ids : list string) (h : gmap loc URL) (u : URL) :
  h !! baseUrl this = Some u →
  ∃ o h' u',
    getArtists network this ids h = Some (o, h')
    ∧ h' !! baseUrl this = Some u'
    ∧ occurrences "=" (search u') = List.length ids
    ∧ occurrences "&" (search u') = Nat.pred (List.length ids).
Proof.
  intros Hl. eexists _, _, _.
  split; [by apply (perform_run network this (GetArtists ids))|].
  split; [apply lookup_insert_eq|].
  rewrite search_composed. cbn [query_of].
  destruct ids as [|id ids]; [done|].
  unfold search_of. cbn [map]. rewrite <- (map_cons (λ id, ("id", id))).
  rewrite toString_ids, !occurrences_append.
  destruct (occurrences_id_parameters (id :: ids)) as [-> ->]. done.
Qed.

Lemma getArtists_one_parameter_per_id_witness :
  store_with (mkURL "http://api.test" "/" "") !! baseUrl client
  = Some (mkURL "http://api.test" "/" "")
  ∧ ∃ o h' u',
      getArtists unreachable client ["a&id=b"; "c=d"]
        (store_with (mkURL "http://api.test" "/" ""))
      = Some (o, h')
      ∧ h' !! baseUrl client = Some u'
      ∧ occurrences "=" (search u') = 2%nat
      ∧ occurrences "&" (search u') = 1%nat.
Proof.
  split; [reflexivity|].
  apply (getArtists_one_parameter_per_id unreachable client ["a&id=b"; "c=d"]
           (store_with (mkURL "http://api.test" "/" ""))
           (mkURL "http://api.test" "/" "")).
  reflexivity.
Defined.

(** ** When the classifier throws a [TypeError] *)

Lemma well_formed_error_shape props eprops m :
  Json.lookup "error" props = Some (JObject eprops) →
  Json.lookup "message" eprops = Some m →
  well_formed_error (JObject props) = Return true.
Proof.
  intros Herr Hmsg. unfold well_formed_error. cbn.
  rewrite (lookup_has_key _ _ _ Herr), Herr. cbn.
  by rewrite (lookup_has_key _ _ _ Hmsg).
Qed.

(** X21: on a response whose body has been read and parsed as JSON, the
    classifier throws a [TypeError] only when [ok] is false and the
    parsed body is [null], a boolean, a number or a string, or an object
    whose [error] is one of these, or an object whose [error] is an
    object with a [message] that cannot be converted to a string. *)
Theorem from_TypeError_only_for (req : ApiRequest.t) (res : Response)
    (body : JSON) :
  json res = Some body →
  ApiResponse_from req res = Throw TypeError →
  ok res = false
  ∧ (primitive body = true
     ∨ (∃ props e, body = JObject props
                   ∧ Json.lookup "error" props = Some e
                   ∧ primitive e = true)
     ∨ (∃ props eprops m,
          body = JObject props
          ∧ Json.lookup "error" props = Some (JObject eprops)
          ∧ Json.lookup "message" eprops = Some m
          ∧ Js.ToString m = None)).
Proof.
  intros Hjson. rewrite from_unfold, Hjson.
  destruct (ok res); [done|]. intros Hthrow. split; [done|].
  destruct body as [| | | |items|props]; try by left.
  - exfalso. revert Hthrow. unfold well_formed_error.
    by rewrite array_has_no_word.
  - destruct (Json.lookup "error" props) as [e|] eqn:Herr.
    + destruct e as [| | | |items|eprops];
        try (right; left; by eexists _, _).
      * exfalso. revert Hthrow. unfold well_formed_error.
        cbn [Js.has_property Js.typeof Js.get].
        rewrite (lookup_has_key _ _ _ Herr), Herr.
        cbn [or_TypeError obind negb String.eqb Ascii.eqb Bool.eqb].
        by rewrite array_has_no_word.
      * destruct (Json.lookup "message" eprops) as [m|] eqn:Hmsg.
        -- right; right. exists props, eprops, m. do 3 (split; [done|]).
           revert Hthrow.
           rewrite (well_formed_error_shape _ _ _ Herr Hmsg).
           rewrite (new_ApiError_shape _ _ _ _ _ Herr Hmsg).
           by destruct (Js.ToString m).
        -- exfalso. revert Hthrow. unfold well_formed_error. cbn.
           rewrite (lookup_has_key _ _ _ Herr), Herr. cbn.
           by rewrite (lookup_None_has_key _ _ Hmsg).
    + exfalso. revert Hthrow. unfold well_formed_error. cbn.
      by rewrite (lookup_None_has_key _ _ Herr).
Qed.

Lemma from_TypeError_only_for_witness :
  json (mkResponse 500 (Some (JObject [("error", JString "oops")])))
  = Some (JObject [("error", JString "oops")])
  ∧ ApiResponse_from (plain_request client)
      (mkResponse 500 (Some (JObject [("error", JString "oops")])))
    = Throw TypeError
  ∧ ok (mkResponse 500 (Some (JObject [("error", JString "oops")]))) = false.
Proof.
  split; [reflexivity|]. split; [reflexivity|].
  apply (from_TypeError_only_for (plain_request client)
           (mkResponse 500 (Some (JObject [("error", JString "oops")])))
           (JObject [("error", JString "oops")]));
    reflexivity.
Defined.
